(** * docker-sqlite: the migration runner, the query helpers and the scoped
    connection, embedded from [src/migrate.ts], [src/query.ts] and
    [src/connect.ts].

    The embedded SQL engine (sql.js) is an external collaborator.  It is
    modelled by a handle over an engine state; the four statements that the
    runner itself issues against the [_migrations] relation have their SQLite
    meaning built in, and every other piece of SQL is interpreted by an
    [Engine] parameter. *)

From Stdlib Require Import ZArith List String Ascii Bool Lia DecimalString.
From Stdlib Require Import Sorting.Sorted Sorting.Permutation.
Import ListNotations.

Open Scope string_scope.
Open Scope Z_scope.
Open Scope list_scope.

Set Implicit Arguments.

(* ------------------------------------------------------------------ *)
(** ** Thrown values and results *)

(** What a JavaScript [throw] carries: an [Error] with its message, a Node
    file-system error (an [Error] with a [code]), or a value that is not an
    [Error], kept as its [String(...)] rendering. *)
Inductive Exn : Type :=
| Error (message : string)
| ErrnoException (code : string) (message : string)
| Thrown (rendering : string).

(** [error instanceof Error ? error.message : String(error)] *)
Definition cause_text (error : Exn) : string :=
  match error with
  | Error message => message
  | ErrnoException _ message => message
  | Thrown rendering => rendering
  end.

Inductive Result (A : Type) : Type :=
| Ok (value : A)
| Throw (error : Exn).
Arguments Ok {A} value.
Arguments Throw {A} error.

(** Template-literal rendering of an integral number. *)
Definition show (z : Z) : string := NilZero.string_of_int (Z.to_int z).

(* ------------------------------------------------------------------ *)
(** ** JavaScript array and Set helpers *)

Module Js.

(** [Array.prototype.sort(compareFn)]: stable, an element moves behind
    another only when [compareFn] is positive. *)
Fixpoint insert {A : Type} (cmp : A -> A -> Z) (x : A) (l : list A) : list A :=
  match l with
  | [] => [x]
  | y :: ys => if cmp x y <=? 0 then x :: y :: ys else y :: insert cmp x ys
  end.

Fixpoint sort {A : Type} (cmp : A -> A -> Z) (l : list A) : list A :=
  match l with
  | [] => []
  | x :: xs => insert cmp x (sort cmp xs)
  end.

(** [new Set(iterable)]: members in first-insertion order. *)
Definition has (s : list Z) (v : Z) : bool := existsb (Z.eqb v) s.

Definition add (s : list Z) (v : Z) : list Z :=
  if has s v then s else s ++ [v].

Definition new_Set (l : list Z) : list Z := fold_left add l [].

End Js.

(* ------------------------------------------------------------------ *)
(** ** Data model ([src/types.ts]) *)

Inductive SqlValue : Type :=
| SNum (n : Z)
| SText (s : string)
| SBlob (bytes : list Byte.byte)
| SNull.

(** A result row as a keyed record ([Record<string, unknown>]). *)
Definition Row : Type := list (string * SqlValue).

Record QueryResult : Type := {
  columns : list string;
  rows : list Row
}.

Record ExecuteResult : Type := { changes : Z }.

Record Migration : Type := {
  version : Z;
  description : string;
  up : string;
  down : option string
}.

Record MigrationStatus : Type := {
  currentVersion : Z;
  appliedMigrations : list Z;
  pendingMigrations : list Migration
}.

Record ConnectionConfig : Type := { dbPath : string }.

(* ------------------------------------------------------------------ *)
(** ** The engine *)

(** One row of [_migrations(version INTEGER PRIMARY KEY, description TEXT
    NOT NULL, applied_at TEXT NOT NULL DEFAULT (datetime('now')))]. *)
Record LedgerEntry : Type := {
  entry_version : Z;
  entry_description : string;
  applied_at : string
}.

(** Engine state: the caller's own relations ([store]), the ledger relation
    ([None] while the table does not exist), the counter behind
    [getRowsModified] and the engine clock behind [datetime('now')]. *)
Record Db (Store : Type) : Type := {
  store : Store;
  ledger : option (list LedgerEntry);
  rowsModified : Z;
  clock : string
}.

(** A prepared statement: its result column names, and the rows it yields
    once parameters are bound. *)
Record Statement : Type := {
  columnNames : list string;
  bindRows : list SqlValue -> Result (list (list SqlValue))
}.

(** The engine's reading of SQL other than the runner's own four statements:
    [script] for [db.exec] (a failing script returns the state it reached),
    [statement] for [db.run], [select] for [db.prepare]; [blank] is the state
    of [new SQL.Database()]; [persistent] is what of a store is in the
    database image, and so survives closing the connection and opening a
    new one (not, for one, the last inserted row id). *)
Record Engine (Store : Type) : Type := {
  script : string -> Db Store -> Result unit * Db Store;
  statement : string -> list SqlValue -> Db Store -> Result unit * Db Store;
  select : string -> Db Store -> Result Statement;
  blank : Db Store;
  persistent : Store -> Store
}.

(** Calls received by a database handle. *)
Inductive Call : Type :=
| CallExec (sql : string)
| CallRun (sql : string) (params : list SqlValue)
| CallPrepare (sql : string)
| CallExport
| CallClose.

(** A live handle: the engine state and the journal of calls made on it. *)
Record Database (Store : Type) : Type := {
  state : Db Store;
  journal : list Call
}.

Definition MIGRATIONS_TABLE_SQL : string := "
  CREATE TABLE IF NOT EXISTS _migrations (
    version INTEGER PRIMARY KEY,
    description TEXT NOT NULL,
    applied_at TEXT NOT NULL DEFAULT (datetime('now'))
  )
".

Definition SELECT_VERSIONS_SQL : string :=
  "SELECT version FROM _migrations ORDER BY version".

Definition INSERT_LEDGER_SQL : string :=
  "INSERT INTO _migrations (version, description) VALUES (?, ?)".

Definition DELETE_LEDGER_SQL : string :=
  "DELETE FROM _migrations WHERE version = ?".

Definition no_such_table : Exn := Error "no such table: _migrations".

Definition unique_failed : Exn :=
  Error "UNIQUE constraint failed: _migrations.version".

Definition has_version (v : Z) (entries : list LedgerEntry) : bool :=
  existsb (fun e => entry_version e =? v) entries.

Definition versions (entries : list LedgerEntry) : list Z :=
  map entry_version entries.

(** The entries of the ledger relation, none while the table is absent. *)
Definition entries {Store : Type} (s : Db Store) : list LedgerEntry :=
  match ledger s with
  | Some es => es
  | None => []
  end.

(* ------------------------------------------------------------------ *)
(** ** Computations on a handle: state passing with exceptions *)

(** A computation over a mutable state [S] that returns or throws. *)
Definition M (S A : Type) : Type := S -> Result A * S.

Definition ret {S A : Type} (a : A) : M S A :=
  fun st => (Ok a, st).

Definition throw {S A : Type} (error : Exn) : M S A :=
  fun st => (Throw error, st).

Definition bind {S A B : Type} (m : M S A) (k : A -> M S B) : M S B :=
  fun st =>
    match m st with
    | (Ok a, st') => k a st'
    | (Throw error, st') => (Throw error, st')
    end.

(** [try { body } catch (error) { handler }] *)
Definition try_catch {S A : Type} (body : M S A) (handler : Exn -> M S A)
  : M S A :=
  fun st =>
    match body st with
    | (Ok a, st') => (Ok a, st')
    | (Throw error, st') => handler error st'
    end.

(** [try { body } finally { cleanup }] with a cleanup that cannot throw. *)
Definition try_finally {S A : Type} (body : M S A) (cleanup : S -> S) : M S A :=
  fun st => let (r, st') := body st in (r, cleanup st').

Declare Scope db_scope.
Delimit Scope db_scope with db.
Notation "x <- m ;; k" := (bind m (fun x => k))
  (at level 100, m at next level, right associativity) : db_scope.
Notation "m ;;; k" := (bind m (fun _ => k))
  (at level 100, right associativity) : db_scope.

Section Runner.

Context {Store : Type} (E : Engine Store).

Local Open Scope db_scope.

(* ------------------------------------------------------------------ *)
(** ** Engine calls *)

(** [CREATE TABLE IF NOT EXISTS _migrations]: creates the empty relation when
    it is absent and changes nothing otherwise. *)
Definition create_ledger (s : Db Store) : Db Store :=
  match ledger s with
  | Some _ => s
  | None => {| store := store s; ledger := Some [];
               rowsModified := rowsModified s; clock := clock s |}
  end.

(** [INSERT INTO _migrations (version, description) VALUES (v, d)]: the
    primary key rejects a version already present; [applied_at] takes its
    default from the engine clock. *)
Definition insert_ledger (v : Z) (d : string) (s : Db Store)
  : Result unit * Db Store :=
  match ledger s with
  | None => (Throw no_such_table, s)
  | Some es =>
      if has_version v es then (Throw unique_failed, s)
      else (Ok tt,
            {| store := store s;
               ledger := Some (es ++ [{| entry_version := v;
                                         entry_description := d;
                                         applied_at := clock s |}]);
               rowsModified := 1; clock := clock s |})
  end.

(** [DELETE FROM _migrations WHERE version = v] *)
Definition delete_ledger (v : Z) (s : Db Store) : Result unit * Db Store :=
  match ledger s with
  | None => (Throw no_such_table, s)
  | Some es =>
      let kept := filter (fun e => negb (entry_version e =? v)) es in
      (Ok tt,
       {| store := store s; ledger := Some kept;
          rowsModified := Z.of_nat (List.length es - List.length kept);
          clock := clock s |})
  end.

(** [SELECT version FROM _migrations ORDER BY version] *)
Definition select_versions (s : Db Store) : Result Statement :=
  match ledger s with
  | None => Throw no_such_table
  | Some es =>
      Ok {| columnNames := ["version"];
            bindRows := fun _ =>
              Ok (map (fun v => [SNum v])
                      (Js.sort (fun a b => a - b) (versions es))) |}
  end.

Definition engine_exec (sql : string) (s : Db Store) : Result unit * Db Store :=
  if (sql =? MIGRATIONS_TABLE_SQL)%string then (Ok tt, create_ledger s)
  else script E sql s.

Definition engine_run (sql : string) (params : list SqlValue) (s : Db Store)
  : Result unit * Db Store :=
  if (sql =? INSERT_LEDGER_SQL)%string then
    match params with
    | [SNum v; SText d] => insert_ledger v d s
    | _ => statement E sql params s
    end
  else if (sql =? DELETE_LEDGER_SQL)%string then
    match params with
    | [SNum v] => delete_ledger v s
    | _ => statement E sql params s
    end
  else statement E sql params s.

Definition engine_prepare (sql : string) (s : Db Store) : Result Statement :=
  if (sql =? SELECT_VERSIONS_SQL)%string then select_versions s
  else select E sql s.

Definition record_call (c : Call) (s : Db Store) (db : Database Store)
  : Database Store :=
  {| state := s; journal := journal db ++ [c] |}.

(** [db.exec(sql)] *)
Definition db_exec (sql : string) : M (Database Store) unit :=
  fun db =>
    let (r, s) := engine_exec sql (state db) in
    (r, record_call (CallExec sql) s db).

(** [db.run(sql, params)] *)
Definition db_run (sql : string) (params : list SqlValue) : M (Database Store) unit :=
  fun db =>
    let (r, s) := engine_run sql params (state db) in
    (r, record_call (CallRun sql params) s db).

(** [db.prepare(sql)] *)
Definition db_prepare (sql : string) : M (Database Store) Statement :=
  fun db =>
    (engine_prepare sql (state db),
     record_call (CallPrepare sql) (state db) db).

(** [db.getRowsModified()] *)
Definition db_getRowsModified : M (Database Store) Z :=
  fun db => (Ok (rowsModified (state db)), db).

(* ------------------------------------------------------------------ *)
(** ** [src/query.ts] *)

(** [stmt.getAsObject()] for the current row. *)
Definition getAsObject (stmt : Statement) (current : list SqlValue) : Row :=
  combine (columnNames stmt) current.

(** The [while (stmt.step())] loop over the rows still to come; [columns] and
    [rows] are the two accumulators of the source. *)
Fixpoint step_loop (stmt : Statement) (cursor : list (list SqlValue))
  (columns : list string) (rows : list Row) : list string * list Row :=
  match cursor with
  | [] => (columns, rows)
  | current :: rest =>
      let columns' :=
        if (List.length columns =? 0)%nat then columnNames stmt else columns in
      step_loop stmt rest columns' (rows ++ [getAsObject stmt current])
  end.

(** [stmt.free()] in the [finally] releases the statement and leaves the
    handle as it is, on return and on a failing [bind] alike. *)
Definition query (sql : string) (params : list SqlValue)
  : M (Database Store) QueryResult :=
  stmt <- db_prepare sql ;;
  match bindRows stmt params with
  | Throw error => throw error
  | Ok cursor =>
      let (columns, rows) := step_loop stmt cursor [] [] in
      ret {| columns := columns; rows := rows |}
  end.

Definition execute (sql : string) (params : list SqlValue)
  : M (Database Store) ExecuteResult :=
  db_run sql params ;;;
  n <- db_getRowsModified ;;
  ret {| changes := n |}.

Definition execMultiple (sql : string) : M (Database Store) unit :=
  db_exec sql.

(** [result.rows.length > 0] of the [sqlite_master] lookup. *)
Definition tableExists (tableName : string) : M (Database Store) bool :=
  result <- query "SELECT name FROM sqlite_master WHERE type='table' AND name=?"
                  [SText tableName] ;;
  ret (0 <? List.length (rows result))%nat.

(* ------------------------------------------------------------------ *)
(** ** [src/migrate.ts] *)

Definition ensureMigrationsTable : M (Database Store) unit :=
  execMultiple MIGRATIONS_TABLE_SQL.

(** Property access [r.version] on a keyed record. *)
Definition field (key : string) (r : Row) : option SqlValue :=
  option_map snd (find (fun kv => (fst kv =? key)%string) r).

(** The row type asserted by [query<{ version: number }>]; exact on the rows
    of [SELECT_VERSIONS_SQL] (lemma [select_rows_versions]). *)
Definition as_number (v : option SqlValue) : Z :=
  match v with
  | Some (SNum n) => n
  | _ => 0
  end.

Definition getMigrationStatus (migrations : list Migration)
  : M (Database Store) MigrationStatus :=
  ensureMigrationsTable ;;;
  applied <- query SELECT_VERSIONS_SQL [] ;;
  let appliedVersions :=
    Js.new_Set (map (fun r => as_number (field "version" r)) (rows applied)) in
  let appliedMigrations := Js.sort (fun a b => a - b) appliedVersions in
  let currentVersion :=
    if (0 <? List.length appliedMigrations)%nat
    then nth (List.length appliedMigrations - 1) appliedMigrations 0
    else 0 in
  let pendingMigrations :=
    Js.sort (fun a b => version a - version b)
      (filter (fun m => negb (Js.has appliedVersions (version m))) migrations) in
  ret {| currentVersion := currentVersion;
         appliedMigrations := appliedMigrations;
         pendingMigrations := pendingMigrations |}.

Definition apply_failed (migration : Migration) (error : Exn) : Exn :=
  Error ("Failed to apply migration " ++ show (version migration) ++ " ("
         ++ description migration ++ "): " ++ cause_text error)%string.

(** The body of the [for ... of status.pendingMigrations] loop, with the
    [applied] accumulator. *)
Fixpoint run_pending (pending : list Migration) (applied : list Migration)
  : M (Database Store) (list Migration) :=
  match pending with
  | [] => ret applied
  | migration :: rest =>
      try_catch
        (execMultiple (up migration) ;;;
         execute INSERT_LEDGER_SQL
           [SNum (version migration); SText (description migration)] ;;;
         ret tt)
        (fun error => throw (apply_failed migration error)) ;;;
      run_pending rest (applied ++ [migration])
  end.

Definition runMigrations (migrations : list Migration)
  : M (Database Store) (list Migration) :=
  status <- getMigrationStatus migrations ;;
  run_pending (pendingMigrations status) [].

(** [!migration.down]: an absent script or the empty string. *)
Definition no_down (migration : Migration) : bool :=
  match down migration with
  | None => true
  | Some sql => (sql =? "")%string
  end.

Definition not_found (v : Z) : Exn :=
  Error ("Migration " ++ show v ++ " not found in migrations list")%string.

Definition no_down_migration (migration : Migration) : Exn :=
  Error ("Migration " ++ show (version migration) ++ " ("
         ++ description migration ++ ") has no down migration")%string.

Definition rollback_failed (migration : Migration) (error : Exn) : Exn :=
  Error ("Failed to rollback migration " ++ show (version migration) ++ ": "
         ++ cause_text error)%string.

Definition rollbackMigration (migrations : list Migration)
  : M (Database Store) (option Migration) :=
  status <- getMigrationStatus migrations ;;
  if currentVersion status =? 0 then ret None
  else
    match find (fun m => version m =? currentVersion status) migrations with
    | None => throw (not_found (currentVersion status))
    | Some migration =>
        if no_down migration then throw (no_down_migration migration)
        else
          try_catch
            (execMultiple (match down migration with
                           | Some sql => sql
                           | None => ""
                           end) ;;;
             execute DELETE_LEDGER_SQL [SNum (version migration)] ;;;
             ret (Some migration))
            (fun error => throw (rollback_failed migration error))
    end.

End Runner.

Definition createMigration (version : Z) (description : string) (up : string)
  (down : option string) : Migration :=
  {| version := version; description := description; up := up; down := down |}.

(* ------------------------------------------------------------------ *)
(** ** [src/connect.ts] *)

(** What the connection layer does outside the handle: entering
    [saveDatabase] and the three [node:fs/promises] calls. *)
Inductive Event : Type :=
| EvSaveDatabase (path : string)
| EvReadFile (path : string)
| EvMkdir (path : string)
| EvWriteFile (path : string).

(** The file system as the connection layer sees it: the image stored at each
    path, the calls that fail (with the error they raise), what a write that
    failed leaves at its path, and the log of what happened.  An image is
    given by the database it holds; its format is the engine's and opaque to
    this package.  [writeFile] writes in place, so after a failed write the
    path may hold the previous image, nothing readable, or anything between:
    [torn] leaves that open. *)
Record World (Store : Type) : Type := {
  files : string -> option (Db Store);
  faults : Event -> option Exn;
  torn : string -> option (Db Store);
  events : list Event
}.

Section Connect.

Context {Store : Type} (E : Engine Store).

(** [dirname] of [node:path]. *)
Variable dirname : string -> string.

Local Open Scope db_scope.

Definition log (ev : Event) (w : World Store) : World Store :=
  {| files := files w; faults := faults w; torn := torn w;
     events := events w ++ [ev] |}.

Definition enoent (path : string) : Exn :=
  ErrnoException "ENOENT"
    ("ENOENT: no such file or directory, open '" ++ path ++ "'")%string.

Definition readFile (path : string) : M (World Store) (Db Store) :=
  fun w =>
    let w' := log (EvReadFile path) w in
    match faults w (EvReadFile path) with
    | Some error => (Throw error, w')
    | None =>
        match files w path with
        | Some image => (Ok image, w')
        | None => (Throw (enoent path), w')
        end
    end.

Definition mkdir (path : string) : M (World Store) unit :=
  fun w =>
    let w' := log (EvMkdir path) w in
    match faults w (EvMkdir path) with
    | Some error => (Throw error, w')
    | None => (Ok tt, w')
    end.

Definition writeFile (path : string) (image : Db Store)
  : M (World Store) unit :=
  fun w =>
    match faults w (EvWriteFile path) with
    | Some error =>
        (Throw error,
         {| files := fun p => if (p =? path)%string then torn w path
                              else files w p;
            faults := faults w; torn := torn w;
            events := events w ++ [EvWriteFile path] |})
    | None =>
        (Ok tt,
         {| files := fun p => if (p =? path)%string then Some image
                              else files w p;
            faults := faults w; torn := torn w;
            events := events w ++ [EvWriteFile path] |})
    end.

(** [(error as NodeJS.ErrnoException).code] *)
Definition code_of (error : Exn) : option string :=
  match error with
  | ErrnoException code _ => Some code
  | _ => None
  end.

Definition is_enoent (error : Exn) : bool :=
  match code_of error with
  | Some code => (code =? "ENOENT")%string
  | None => false
  end.

(** A new handle on an engine state. *)
Definition new_Database (image : Db Store) : Database Store :=
  {| state := image; journal := [] |}.

(** The state of a connection newly opened on a database: the persistent
    part of the store and the ledger relation, with the change counter back
    at 0. *)
Definition reopened (s : Db Store) : Db Store :=
  {| store := persistent E (store s); ledger := ledger s;
     rowsModified := 0; clock := clock s |}.

(** [new SQL.Database()] is a handle on [blank E]; [new SQL.Database(buffer)]
    is a handle on a connection newly opened on the image. *)
Definition loadDatabase (path : string) : M (World Store) (Database Store) :=
  if (path =? ":memory:")%string then ret (new_Database (blank E))
  else
    try_catch
      (buffer <- readFile path ;; ret (new_Database (reopened buffer)))
      (fun error =>
         if is_enoent error then ret (new_Database (blank E))
         else throw error).

(** [db.export()]: the engine closes the connection, reads the image and
    opens a new connection on it, so the handle goes on with a reopened
    state and the image holds the same. *)
Definition db_export (db : Database Store) : Db Store * Database Store :=
  (reopened (state db),
   {| state := reopened (state db); journal := journal db ++ [CallExport] |}).

(** [db.close()] *)
Definition db_close (db : Database Store) : Database Store :=
  {| state := state db; journal := journal db ++ [CallClose] |}.

(** The state threaded through a scope: the live handle and the world. *)
Definition Scope : Type := (Database Store * World Store)%type.

Definition in_world {A : Type} (m : M (World Store) A) : M Scope A :=
  fun st => let (r, w) := m (snd st) in (r, (fst st, w)).

Definition on_handle {A : Type} (m : M (Database Store) A) : M Scope A :=
  fun st => let (r, db) := m (fst st) in (r, (db, snd st)).

Definition saveDatabase (path : string) : M Scope unit :=
  fun st =>
    let st := (fst st, log (EvSaveDatabase path) (snd st)) in
    if (path =? ":memory:")%string then (Ok tt, st)
    else
      let (data, db) := db_export (fst st) in
      (in_world (mkdir (dirname path)) ;;;
       in_world (writeFile path data)) (db, snd st).

(** [ConnectionCallback<T>]: caller logic over the live handle. *)
Definition ConnectionCallback (T : Type) : Type := M (Database Store) T.

(** The outcome of [withConnection]: what the returned promise settles to,
    the handle as it was left (none when loading failed), and the world. *)
Definition withConnection {T : Type} (config : ConnectionConfig)
  (fn : ConnectionCallback T)
  : World Store -> Result T * option (Database Store) * World Store :=
  fun w =>
    match loadDatabase (dbPath config) w with
    | (Throw error, w1) => (Throw error, None, w1)
    | (Ok db, w1) =>
        let (r, st) :=
          try_finally
            (result <- on_handle fn ;;
             saveDatabase (dbPath config) ;;;
             ret result)
            (fun st => (db_close (fst st), snd st))
            (db, w1) in
        (r, Some (fst st), snd st)
    end.

(** The handle and its [save] operation. *)
Definition createConnection (config : ConnectionConfig)
  : M (World Store) (Database Store * M Scope unit) :=
  db <- loadDatabase (dbPath config) ;;
  ret (db, saveDatabase (dbPath config)).

End Connect.

(* ------------------------------------------------------------------ *)
(** ** Vocabulary of the statements below *)

Section Vocabulary.

Context {Store : Type} (E : Engine Store).

(** A script leaves the ledger relation alone: run on a database that has
    the relation, it returns or fails with the relation as it was. *)
Definition ledger_safe (sql : string) : Prop :=
  forall s : Db Store,
    ledger s <> None -> ledger (snd (engine_exec E sql s)) = ledger s.

(** The two calls the runner makes for one migration. *)
Definition insert_params (m : Migration) : list SqlValue :=
  [SNum (version m); SText (description m)].

Definition calls_of (m : Migration) : list Call :=
  [CallExec (up m); CallRun INSERT_LEDGER_SQL (insert_params m)].

(** [Applied ms d d']: from [d], for each migration of [ms] in turn the up
    script and then the ledger insert return normally, and leave [d']. *)
Inductive Applied : list Migration -> Database Store -> Database Store -> Prop :=
| Applied_nil : forall d, Applied [] d d
| Applied_cons : forall m ms d d1 d2 d3,
    db_exec E (up m) d = (Ok tt, d1) ->
    db_run E INSERT_LEDGER_SQL (insert_params m) d1 = (Ok tt, d2) ->
    Applied ms d2 d3 ->
    Applied (m :: ms) d d3.

(** [Fails m error d d']: from [d], the up script of [m] raises [error], or
    it returns and the ledger insert raises [error]; [d'] is what is left. *)
Definition Fails (m : Migration) (error : Exn) (d d' : Database Store) : Prop :=
  db_exec E (up m) d = (Throw error, d')
  \/ exists d1,
       db_exec E (up m) d = (Ok tt, d1)
       /\ db_run E INSERT_LEDGER_SQL (insert_params m) d1 = (Throw error, d').

End Vocabulary.

(** Ascending, and strictly ascending, in a key. *)
Definition key_le {A : Type} (key : A -> Z) (a b : A) : Prop := key a <= key b.

Definition key_lt {A : Type} (key : A -> Z) (a b : A) : Prop := key a < key b.

(** The last character of a string, [d] for the empty one. *)
Fixpoint string_last (s : string) (d : ascii) : ascii :=
  match s with
  | EmptyString => d
  | String c rest => string_last rest c
  end.

(** The (version, description) pairs recorded in the ledger, in row order. *)
Definition recorded {Store : Type} (s : Db Store) : list (Z * string) :=
  map (fun e => (entry_version e, entry_description e)) (entries s).

Definition record_of (m : Migration) : Z * string :=
  (version m, description m).

(** The status of section 4.2 of the design, computed from the ledger's
    versions: the distinct applied versions in ascending order, the last of
    them (or 0), and the declared migrations whose version is not applied,
    in ascending order of version. *)
Definition spec_status (applied : list Z) (migrations : list Migration)
  : MigrationStatus :=
  let ascending := Js.sort (fun a b => a - b) (Js.new_Set applied) in
  {| currentVersion := last ascending 0;
     appliedMigrations := ascending;
     pendingMigrations :=
       Js.sort (fun a b => version a - version b)
         (filter (fun m => negb (existsb (Z.eqb (version m)) applied))
                 migrations) |}.

(** The handle after a status computation: the ledger relation exists, and
    the journal shows the table creation and the version query. *)
Definition after_status {Store : Type} (E : Engine Store) (db : Database Store)
  : Database Store :=
  {| state := create_ledger (state db);
     journal := journal db
                ++ [CallExec MIGRATIONS_TABLE_SQL;
                    CallPrepare SELECT_VERSIONS_SQL] |}.

(* ------------------------------------------------------------------ *)
(** ** A miniature engine

    An engine small enough to run: its store is the list of table names, a
    script is a [;]-separated sequence of [CREATE TABLE name] and
    [DROP TABLE name], executed one statement at a time, each taking effect
    as soon as it succeeds.  It is the engine of the concrete runs below. *)

Module Mini.

Definition is_space (c : ascii) : bool :=
  ((c =? " ") || (c =? "010") || (c =? "009") || (c =? "013"))%char.

Fixpoint ltrim (s : string) : string :=
  match s with
  | EmptyString => EmptyString
  | String c rest => if is_space c then ltrim rest else s
  end.

Fixpoint split (sep : ascii) (s : string) : list string :=
  match s with
  | EmptyString => [EmptyString]
  | String c rest =>
      if (c =? sep)%char then EmptyString :: split sep rest
      else
        match split sep rest with
        | piece :: more => String c piece :: more
        | [] => [String c EmptyString]
        end
  end.

Fixpoint strip_prefix (p s : string) : option string :=
  match p, s with
  | EmptyString, _ => Some s
  | String a p', String b s' =>
      if (a =? b)%char then strip_prefix p' s' else None
  | String _ _, EmptyString => None
  end.

(** The identifier at the head of [s]: up to a blank or a parenthesis. *)
Fixpoint name_of (s : string) : string :=
  match s with
  | EmptyString => EmptyString
  | String c rest =>
      if (is_space c || (c =? "(")%char)%bool then EmptyString
      else String c (name_of rest)
  end.

Definition mem (t : string) (tables : list string) : bool :=
  existsb (String.eqb t) tables.

Definition one (text : string) (tables : list string) : Result (list string) :=
  let text := ltrim text in
  if (text =? "")%string then Ok tables
  else
    match strip_prefix "CREATE TABLE " text with
    | Some rest =>
        let t := name_of rest in
        if mem t tables
        then Throw (Error ("table " ++ t ++ " already exists")%string)
        else Ok (tables ++ [t])
    | None =>
        match strip_prefix "DROP TABLE " text with
        | Some rest =>
            let t := name_of rest in
            if mem t tables
            then Ok (filter (fun u => negb (u =? t)%string) tables)
            else Throw (Error ("no such table: " ++ t)%string)
        | None => Throw (Error ("syntax error: " ++ text)%string)
        end
    end.

Fixpoint all (texts : list string) (tables : list string)
  : Result unit * list string :=
  match texts with
  | [] => (Ok tt, tables)
  | text :: rest =>
      match one text tables with
      | Ok tables' => all rest tables'
      | Throw error => (Throw error, tables)
      end
  end.

Definition with_store (s : Db (list string)) (tables : list string)
  : Db (list string) :=
  {| store := tables; ledger := ledger s;
     rowsModified := rowsModified s; clock := clock s |}.

Definition TABLE_EXISTS_SQL : string :=
  "SELECT name FROM sqlite_master WHERE type='table' AND name=?".

Definition engine : Engine (list string) :=
  {| script := fun sql s =>
       let (r, tables) := all (split ";" sql) (store s) in
       (r, with_store s tables);
     statement := fun sql _ s =>
       (Throw (Error ("syntax error: " ++ sql)%string), s);
     select := fun sql s =>
       if (sql =? TABLE_EXISTS_SQL)%string then
         Ok {| columnNames := ["name"];
               bindRows := fun params =>
                 match params with
                 | [SText t] =>
                     Ok (if mem t (store s) then [[SText t]] else [])
                 | _ => Throw (Error "wrong number of bindings")
                 end |}
       else Throw (Error ("syntax error: " ++ sql)%string);
     blank := {| store := []; ledger := None; rowsModified := 0;
                 clock := "2024-01-01 00:00:00" |};
     persistent := fun tables => tables |}.

(** A fresh in-memory handle. *)
Definition fresh : Database (list string) :=
  {| state := blank engine; journal := [] |}.

Definition m1 : Migration :=
  createMigration 1 "create t" "CREATE TABLE t(id INTEGER PRIMARY KEY)"
    (Some "DROP TABLE t").

Definition m2 : Migration :=
  createMigration 2 "create u" "CREATE TABLE u(id INTEGER)" (Some "DROP TABLE u").

Definition m3 : Migration :=
  createMigration 3 "create w" "CREATE TABLE w(id INTEGER)" (Some "DROP TABLE w").

(** A migration whose second statement fails after its first took effect. *)
Definition m2_bad : Migration :=
  createMigration 2 "create u"
    "CREATE TABLE u(id INTEGER); DROP TABLE missing" None.

(** A second migration declared with version 1. *)
Definition m1_twin : Migration :=
  createMigration 1 "create u" "CREATE TABLE u(id INTEGER)" None.

(** A migration without a down script. *)
Definition m4 : Migration :=
  createMigration 4 "create x" "CREATE TABLE x(id INTEGER)" None.

(** The handle after [m1], [m2] and [m3] were applied to a fresh one. *)
Definition migrated : Database (list string) :=
  snd (runMigrations engine [m1; m2; m3] fresh).

(** The handle after [m4] alone was applied to a fresh one. *)
Definition migrated4 : Database (list string) :=
  snd (runMigrations engine [m4] fresh).

(** A world without files in which no file-system call fails. *)
Definition empty_world : World (list string) :=
  {| files := fun _ => None; faults := fun _ => None;
     torn := fun _ => None; events := [] |}.

(** Caller logic that creates a table and then raises. *)
Definition create_then_raise : M (Database (list string)) unit :=
  bind (db_exec engine "CREATE TABLE t(id INTEGER)")
       (fun _ => throw (Error "boom")).

End Mini.

(* ------------------------------------------------------------------ *)
(** ** The rest of [src/query.ts] *)

Definition LAST_INSERT_ROWID_SQL : string := "SELECT last_insert_rowid() as id".

Section RowId.

Context {Store : Type} (E : Engine Store).

Local Open Scope db_scope.

(** [result.rows[0]?.id ?? 0]: the [id] of the first row; 0 when there is
    no row, when the row has no such key, and when the value is null. *)
Definition lastInsertRowId : M (Database Store) SqlValue :=
  result <- query E LAST_INSERT_ROWID_SQL [] ;;
  ret (match rows result with
       | [] => SNum 0
       | r :: _ =>
           match field "id" r with
           | None => SNum 0
           | Some SNull => SNum 0
           | Some v => v
           end
       end).

End RowId.

(** The manual mode used as the example above [createConnection] shows it
    ([try { ...; await save() } finally { db.close() }]): open, run the
    caller's logic, persist when it returned, close in every case. *)
Definition manual_scope {Store T : Type} (E : Engine Store)
  (dirname : string -> string) (config : ConnectionConfig)
  (fn : ConnectionCallback (Store := Store) T) (w : World Store)
  : Result T * option (Database Store) * World Store :=
  match createConnection E dirname config w with
  | (Throw error, w1) => (Throw error, None, w1)
  | (Ok (db, save), w1) =>
      match fn db with
      | (Throw error, db1) => (Throw error, Some (db_close db1), w1)
      | (Ok result, db1) =>
          match save (db1, w1) with
          | (Ok _, (db2, w2)) => (Ok result, Some (db_close db2), w2)
          | (Throw error, (db2, w2)) => (Throw error, Some (db_close db2), w2)
          end
      end
  end.

(** More migrations and worlds for the miniature engine. *)
Module Fixtures.

(** A migration whose down script fails. *)
Definition m5 : Migration :=
  createMigration 5 "create y" "CREATE TABLE y(id INTEGER)"
    (Some "DROP TABLE missing").

(** The handle after [m5] was applied to a fresh one. *)
Definition migrated5 : Database (list string) :=
  snd (runMigrations Mini.engine [m5] Mini.fresh).

(** Caller logic that applies [Mini.m1] and returns what was applied. *)
Definition migrate_m1 : M (Database (list string)) (list Migration) :=
  runMigrations Mini.engine [Mini.m1].

(** A world whose directory cannot be created. *)
Definition readonly_world : World (list string) :=
  {| files := fun _ => None;
     faults := fun ev =>
       match ev with
       | EvMkdir _ => Some (ErrnoException "EACCES" "EACCES: permission denied")
       | _ => None
       end;
     torn := fun _ => None;
     events := [] |}.

(** A world in which reading any file is refused. *)
Definition unreadable_world : World (list string) :=
  {| files := fun _ => None;
     faults := fun ev =>
       match ev with
       | EvReadFile _ =>
           Some (ErrnoException "EACCES" "EACCES: permission denied")
       | _ => None
       end;
     torn := fun _ => None;
     events := [] |}.

(** A world in which writing any file fails, and leaves nothing readable. *)
Definition full_world : World (list string) :=
  {| files := fun p => if (p =? "data/app.db")%string
                       then Some (blank Mini.engine) else None;
     faults := fun ev =>
       match ev with
       | EvWriteFile _ => Some (ErrnoException "ENOSPC" "ENOSPC: no space left")
       | _ => None
       end;
     torn := fun _ => None;
     events := [] |}.

(** A migration of version 0. *)
Definition m0 : Migration :=
  createMigration 0 "create z" "CREATE TABLE z(id INTEGER)"
    (Some "DROP TABLE z").

(** The handle after [m0] alone was applied to a fresh one. *)
Definition migrated0 : Database (list string) :=
  snd (runMigrations Mini.engine [m0] Mini.fresh).

End Fixtures.

(** The miniature engine with one more statement, [DELETE FROM _migrations],
    which empties the ledger relation: scripts of this engine can write the
    relation that the runner keeps. *)
Module Meddle.

Definition DELETE_ALL_SQL : string := "DELETE FROM _migrations".

Definition one (text : string) (s : Db (list string))
  : Result (Db (list string)) :=
  if (Mini.ltrim text =? DELETE_ALL_SQL)%string then
    match ledger s with
    | None => Throw no_such_table
    | Some es =>
        Ok {| store := store s; ledger := Some [];
              rowsModified := Z.of_nat (List.length es); clock := clock s |}
    end
  else
    match Mini.one text (store s) with
    | Ok tables => Ok (Mini.with_store s tables)
    | Throw error => Throw error
    end.

Fixpoint all (texts : list string) (s : Db (list string))
  : Result unit * Db (list string) :=
  match texts with
  | [] => (Ok tt, s)
  | text :: rest =>
      match one text s with
      | Ok s' => all rest s'
      | Throw error => (Throw error, s)
      end
  end.

Definition engine : Engine (list string) :=
  {| script := fun sql s => all (Mini.split ";" sql) s;
     statement := statement Mini.engine;
     select := select Mini.engine;
     blank := blank Mini.engine;
     persistent := persistent Mini.engine |}.

(** Version 1 creates a table; version 2 drops it and clears the ledger. *)
Definition a : Migration :=
  createMigration 1 "create t" "CREATE TABLE t(id INTEGER)" None.

Definition b : Migration :=
  createMigration 2 "reset" "DROP TABLE t; DELETE FROM _migrations" None.

(** Version 2 whose down script clears the ledger. *)
Definition b' : Migration :=
  createMigration 2 "create u" "CREATE TABLE u(id INTEGER)"
    (Some "DROP TABLE u; DELETE FROM _migrations").

(** The handle after [a] and [b'] were applied to a fresh one. *)
Definition migrated : Database (list string) :=
  snd (runMigrations engine [a; b'] Mini.fresh).

End Meddle.

(* ================================================================== *)
(** * Facts *)

(* ------------------------------------------------------------------ *)
(** ** Sorting and sets *)

Section SortFacts.

Context {A : Type} (key : A -> Z).

Lemma insert_perm (cmp : A -> A -> Z) (x : A) (l : list A) :
  Permutation (Js.insert cmp x l) (x :: l).
Proof.
  induction l as [|y ys IH]; simpl.
  - apply Permutation_refl.
  - destruct (cmp x y <=? 0).
    + apply Permutation_refl.
    + eapply perm_trans; [apply perm_skip, IH | apply perm_swap].
Qed.

Lemma sort_perm (cmp : A -> A -> Z) (l : list A) :
  Permutation (Js.sort cmp l) l.
Proof.
  induction l as [|x xs IH]; simpl.
  - constructor.
  - eapply perm_trans; [apply insert_perm | apply perm_skip, IH].
Qed.

Lemma sort_In (cmp : A -> A -> Z) (l : list A) (x : A) :
  In x (Js.sort cmp l) <-> In x l.
Proof.
  split; apply Permutation_in;
    [apply sort_perm | apply Permutation_sym, sort_perm].
Qed.

Lemma insert_sorted (x : A) (l : list A) :
  StronglySorted (key_le key) l ->
  StronglySorted (key_le key) (Js.insert (fun a b => key a - key b) x l).
Proof.
  induction 1 as [|y ys Hs IH Hy]; simpl.
  - repeat constructor.
  - destruct (key x - key y <=? 0) eqn:Hc.
    + apply Z.leb_le in Hc.
      constructor; [constructor; assumption|].
      constructor; [unfold key_le; lia|].
      eapply Forall_impl; [|exact Hy].
      unfold key_le; intros; lia.
    + apply Z.leb_gt in Hc.
      constructor; [exact IH|].
      eapply Permutation_Forall;
        [apply Permutation_sym, insert_perm|].
      constructor; [unfold key_le; lia | exact Hy].
Qed.

Lemma sort_sorted (l : list A) :
  StronglySorted (key_le key) (Js.sort (fun a b => key a - key b) l).
Proof.
  induction l as [|x xs IH]; simpl.
  - constructor.
  - apply insert_sorted, IH.
Qed.

Lemma sorted_strict (l : list A) :
  StronglySorted (key_le key) l -> NoDup (map key l) -> StronglySorted (key_lt key) l.
Proof.
  induction 1 as [|y ys Hs IH Hy]; intros Hnd.
  - constructor.
  - simpl in Hnd. inversion Hnd as [|k ks Hnotin Hnd']; subst.
    constructor; [apply IH, Hnd'|].
    rewrite Forall_forall in Hy |- *.
    intros z Hz. specialize (Hy z Hz). unfold key_le in Hy. unfold key_lt.
    assert (key z <> key y).
    { intro Heq. apply Hnotin. rewrite <- Heq. apply in_map, Hz. }
    lia.
Qed.

Lemma sort_sorted_strict (l : list A) :
  NoDup (map key l) ->
  StronglySorted (key_lt key) (Js.sort (fun a b => key a - key b) l).
Proof.
  intros Hnd. apply sorted_strict; [apply sort_sorted|].
  eapply Permutation_NoDup; [|exact Hnd].
  apply Permutation_map, Permutation_sym, sort_perm.
Qed.

(** Two strictly ascending lists with the same members are the same list. *)
Lemma sorted_strict_unique (l1 l2 : list A) :
  StronglySorted (key_lt key) l1 -> StronglySorted (key_lt key) l2 ->
  (forall x, In x l1 <-> In x l2) -> l1 = l2.
Proof.
  intros H1. revert l2.
  induction H1 as [|a l1 Hs1 IH Ha]; intros l2 H2 Hmem.
  - destruct l2 as [|b l2]; [reflexivity|].
    exfalso. apply (proj2 (Hmem b)). left; reflexivity.
  - destruct l2 as [|b l2].
    + exfalso. apply (proj1 (Hmem a)). left; reflexivity.
    + inversion H2 as [|b' l2' Hs2 Hb]; subst.
      rewrite Forall_forall in Ha, Hb. unfold key_lt in Ha, Hb.
      assert (Hab : a = b).
      { destruct (proj1 (Hmem a) (or_introl eq_refl)) as [Heq|Hin];
          [symmetry; exact Heq|].
        destruct (proj2 (Hmem b) (or_introl eq_refl)) as [Heq|Hin'];
          [exact Heq|].
        specialize (Ha _ Hin'). specialize (Hb _ Hin). lia. }
      subst b. f_equal. apply IH; [exact Hs2|].
      intros x; split; intros Hx.
      * destruct (proj1 (Hmem x) (or_intror Hx)) as [Heq|Hin]; [|exact Hin].
        subst x. specialize (Ha _ Hx). lia.
      * destruct (proj2 (Hmem x) (or_intror Hx)) as [Heq|Hin]; [|exact Hin].
        subst x. specialize (Hb _ Hx). lia.
Qed.

Lemma filter_perm (f : A -> bool) (l l' : list A) :
  Permutation l l' -> Permutation (filter f l) (filter f l').
Proof.
  induction 1 as [|x l l' H IH|x y l|l l' l'' H1 IH1 H2 IH2]; simpl.
  - constructor.
  - destruct (f x); [apply perm_skip|]; exact IH.
  - destruct (f x), (f y); try apply Permutation_refl. apply perm_swap.
  - eapply perm_trans; eassumption.
Qed.

Lemma filter_keys_NoDup (f : A -> bool) (l : list A) :
  NoDup (map key l) -> NoDup (map key (filter f l)).
Proof.
  induction l as [|x xs IH]; simpl; intros Hnd.
  - constructor.
  - inversion Hnd as [|k ks Hnotin Hnd']; subst.
    destruct (f x); simpl; [|apply IH, Hnd'].
    constructor; [|apply IH, Hnd'].
    intro Hin. apply Hnotin.
    apply in_map_iff in Hin. destruct Hin as [y [Hy Hin]].
    apply filter_In in Hin. apply in_map_iff. exists y. tauto.
Qed.

End SortFacts.

Lemma has_true_iff (s : list Z) (v : Z) : Js.has s v = true <-> In v s.
Proof.
  unfold Js.has. rewrite existsb_exists. split.
  - intros [x [Hin Heq]]. apply Z.eqb_eq in Heq. subst x. exact Hin.
  - intros Hin. exists v. split; [exact Hin | apply Z.eqb_refl].
Qed.

Lemma fold_add_In (l s : list Z) (v : Z) :
  In v (fold_left Js.add l s) <-> In v s \/ In v l.
Proof.
  revert s. induction l as [|a l IH]; intros s; simpl.
  - tauto.
  - rewrite IH. unfold Js.add. destruct (Js.has s a) eqn:Hhas.
    + apply has_true_iff in Hhas. split.
      * intros [H|H]; auto.
      * intros [H|[H|H]]; auto. subst a. auto.
    + rewrite in_app_iff. simpl. tauto.
Qed.

Lemma fold_add_NoDup (l s : list Z) :
  NoDup s -> NoDup (fold_left Js.add l s).
Proof.
  revert s. induction l as [|a l IH]; intros s Hnd; simpl.
  - exact Hnd.
  - apply IH. unfold Js.add. destruct (Js.has s a) eqn:Hhas.
    + exact Hnd.
    + eapply Permutation_NoDup; [apply Permutation_cons_append|].
      constructor; [|exact Hnd].
      intro Hin. apply has_true_iff in Hin. congruence.
Qed.

Lemma new_Set_In (l : list Z) (v : Z) : In v (Js.new_Set l) <-> In v l.
Proof.
  unfold Js.new_Set. rewrite fold_add_In. simpl. tauto.
Qed.

Lemma new_Set_NoDup (l : list Z) : NoDup (Js.new_Set l).
Proof.
  apply fold_add_NoDup. constructor.
Qed.

Lemma ascending_set_sorted (l : list Z) :
  StronglySorted Z.lt (Js.sort (fun a b => a - b) (Js.new_Set l)).
Proof.
  apply (sort_sorted_strict (fun v : Z => v)).
  rewrite map_id. apply new_Set_NoDup.
Qed.

Lemma ascending_set_In (l : list Z) (v : Z) :
  In v (Js.sort (fun a b => a - b) (Js.new_Set l)) <-> In v l.
Proof.
  rewrite sort_In. apply new_Set_In.
Qed.

(** Re-sorting the engine's already ordered rows changes nothing. *)
Lemma ascending_set_of_sorted (l : list Z) :
  Js.sort (fun a b => a - b) (Js.new_Set (Js.sort (fun a b => a - b) l))
  = Js.sort (fun a b => a - b) (Js.new_Set l).
Proof.
  apply (@sorted_strict_unique Z (fun v : Z => v)).
  - apply ascending_set_sorted.
  - apply ascending_set_sorted.
  - intros x. rewrite !ascending_set_In. apply sort_In.
Qed.

Lemma nth_last_or_zero (l : list Z) :
  (if (0 <? List.length l)%nat then nth (List.length l - 1) l 0 else 0)
  = last l 0.
Proof.
  destruct l as [|a l] using rev_ind.
  - reflexivity.
  - rewrite last_last, length_app. simpl.
    replace (List.length l + 1 - 1)%nat with (List.length l) by lia.
    rewrite nth_middle.
    destruct (0 <? List.length l + 1)%nat eqn:H; [reflexivity|].
    apply Nat.ltb_ge in H. lia.
Qed.

Lemma last_is_max (l : list Z) :
  StronglySorted Z.lt l -> l <> [] ->
  In (last l 0) l /\ forall v, In v l -> v <= last l 0.
Proof.
  induction 1 as [|a l Hs IH Ha]; intros Hne; [congruence|].
  destruct l as [|b l].
  - simpl. split; [auto|]. intros v [Hv|[]]. lia.
  - destruct IH as [Hin Hmax]; [discriminate|].
    change (last (a :: b :: l) 0) with (last (b :: l) 0).
    split; [right; exact Hin|].
    intros v [Hv|Hv]; [|apply Hmax, Hv].
    subst v. rewrite Forall_forall in Ha.
    specialize (Ha _ Hin). lia.
Qed.

Lemma has_set_existsb (l : list Z) (v : Z) :
  Js.has (Js.new_Set (Js.sort (fun a b => a - b) l)) v = existsb (Z.eqb v) l.
Proof.
  apply eq_true_iff_eq. rewrite has_true_iff, new_Set_In, sort_In.
  rewrite existsb_exists. split.
  - intros Hin. exists v. split; [exact Hin | apply Z.eqb_refl].
  - intros [x [Hin Heq]]. apply Z.eqb_eq in Heq. subst x. exact Hin.
Qed.

(* ------------------------------------------------------------------ *)
(** ** The query loop and the status computation *)

Section StatusFacts.

Context {Store : Type} (E : Engine Store).

Lemma step_loop_rows (stmt : Statement) (cursor : list (list SqlValue))
  (cols : list string) (acc : list Row) :
  snd (step_loop stmt cursor cols acc) = acc ++ map (getAsObject stmt) cursor.
Proof.
  revert cols acc. induction cursor as [|current rest IH]; intros; simpl.
  - rewrite app_nil_r. reflexivity.
  - rewrite IH, <- app_assoc. reflexivity.
Qed.

Lemma select_rows_versions (stmt : Statement) (vs : list Z) :
  columnNames stmt = ["version"] ->
  map (fun r => as_number (field "version" r))
      (map (getAsObject stmt) (map (fun v => [SNum v]) vs)) = vs.
Proof.
  intros Hcols. induction vs as [|v vs IH]; simpl; [reflexivity|].
  rewrite IH. unfold getAsObject. rewrite Hcols. reflexivity.
Qed.

Lemma create_ledger_entries (s : Db Store) :
  ledger (create_ledger s) = Some (entries s).
Proof.
  unfold create_ledger, entries. destruct (ledger s) eqn:H; simpl; auto.
Qed.

Lemma create_ledger_present (s : Db Store) :
  ledger s <> None -> create_ledger s = s.
Proof.
  unfold create_ledger. destruct (ledger s); congruence.
Qed.

Lemma create_ledger_store (s : Db Store) : store (create_ledger s) = store s.
Proof.
  unfold create_ledger. destruct (ledger s); reflexivity.
Qed.

Lemma getMigrationStatus_eval (migrations : list Migration)
  (db : Database Store) :
  getMigrationStatus E migrations db
  = (Ok (spec_status (versions (entries (state db))) migrations),
     after_status E db).
Proof.
  unfold getMigrationStatus, ensureMigrationsTable, execMultiple, query.
  unfold bind at 1. unfold db_exec, engine_exec.
  rewrite String.eqb_refl. cbn [state record_call journal].
  unfold bind at 1. unfold bind at 1.
  unfold db_prepare, engine_prepare. rewrite String.eqb_refl.
  cbn [state record_call journal]. unfold select_versions.
  rewrite create_ledger_entries. cbn [bindRows].
  set (stmt := {| columnNames := ["version"]; bindRows := _ |}).
  set (vs := versions (entries (state db))).
  pose proof (step_loop_rows stmt
                (map (fun v => [SNum v]) (Js.sort (fun a b => a - b) vs))
                [] []) as Hrows.
  destruct (step_loop stmt _ [] []) as [cols rws]. simpl in Hrows. subst rws.
  unfold ret, after_status, spec_status. cbn [rows].
  rewrite select_rows_versions by reflexivity.
  rewrite nth_last_or_zero, ascending_set_of_sorted.
  unfold record_call. cbn [state journal]. rewrite <- app_assoc. simpl.
  f_equal. f_equal. f_equal. f_equal. apply filter_ext. intros m.
  rewrite has_set_existsb. reflexivity.
Qed.

End StatusFacts.

(* ------------------------------------------------------------------ *)
(** ** Status ([getMigrationStatus]) *)

Section Status.

Context {Store : Type} (E : Engine Store).

Lemma pending_In (applied : list Z) (migrations : list Migration)
  (m : Migration) :
  In m (pendingMigrations (spec_status applied migrations))
  <-> In m migrations /\ ~ In (version m) applied.
Proof.
  unfold spec_status. cbn [pendingMigrations].
  rewrite sort_In, filter_In, negb_true_iff.
  split; intros [Hin Hno]; split; try exact Hin.
  - intro Hv. rewrite <- not_true_iff_false in Hno. apply Hno.
    apply existsb_exists. exists (version m).
    split; [exact Hv | apply Z.eqb_refl].
  - apply not_true_iff_false. intro Hex. apply Hno.
    apply existsb_exists in Hex. destruct Hex as [x [Hx Heq]].
    apply Z.eqb_eq in Heq. rewrite Heq. exact Hx.
Qed.

(** C4. For every database state and every declared list, the status
    computation returns: as [currentVersion] the largest version in the
    ledger, or 0 when the ledger has none; as [appliedMigrations] the
    ledger's versions in strictly ascending order; as [pendingMigrations]
    exactly the declared migrations whose version is not in the ledger,
    arranged in ascending order of version.  On an empty ledger the pending
    list is the whole declared list sorted by version and [currentVersion]
    is 0. *)
Theorem getMigrationStatus_spec (migrations : list Migration)
  (db : Database Store) :
  exists st db',
    getMigrationStatus E migrations db = (Ok st, db')
    /\ st = spec_status (versions (entries (state db))) migrations
    /\ (versions (entries (state db)) = [] -> currentVersion st = 0)
    /\ (versions (entries (state db)) <> [] ->
        In (currentVersion st) (versions (entries (state db)))
        /\ forall v, In v (versions (entries (state db))) ->
                     v <= currentVersion st)
    /\ StronglySorted Z.lt (appliedMigrations st)
    /\ (forall v, In v (appliedMigrations st)
                  <-> In v (versions (entries (state db))))
    /\ (forall m, In m (pendingMigrations st)
                  <-> In m migrations
                      /\ ~ In (version m) (versions (entries (state db))))
    /\ Permutation (pendingMigrations st)
         (filter (fun m => negb (existsb (Z.eqb (version m))
                                         (versions (entries (state db)))))
                 migrations)
    /\ StronglySorted (key_le version) (pendingMigrations st)
    /\ (versions (entries (state db)) = [] ->
        pendingMigrations st
        = Js.sort (fun a b => version a - version b) migrations
        /\ Permutation (pendingMigrations st) migrations).
Proof.
  rewrite getMigrationStatus_eval.
  set (applied := versions (entries (state db))).
  eexists. eexists. split; [reflexivity|].
  split; [reflexivity|].
  assert (Hsorted : StronglySorted Z.lt
            (Js.sort (fun a b => a - b) (Js.new_Set applied)))
    by apply ascending_set_sorted.
  assert (Hnonempty : applied <> [] ->
            Js.sort (fun a b => a - b) (Js.new_Set applied) <> []).
  { intros Hne Hnil. destruct applied as [|a l]; [congruence|].
    assert (Hin : In a (Js.sort (fun a b => a - b) (Js.new_Set (a :: l))))
      by (apply ascending_set_In; left; reflexivity).
    rewrite Hnil in Hin. exact Hin. }
  split. { intros Hempty. rewrite Hempty. reflexivity. }
  split.
  { intros Hne. cbn [currentVersion spec_status].
    destruct (last_is_max Hsorted (Hnonempty Hne)) as [Hin Hmax].
    split; [apply ascending_set_In, Hin|].
    intros v Hv. apply Hmax, ascending_set_In, Hv. }
  split. { exact Hsorted. }
  split. { intros v. apply ascending_set_In. }
  split. { intros m. apply pending_In. }
  split. { apply sort_perm. }
  split. { apply (sort_sorted version). }
  intros Hempty. cbn [pendingMigrations spec_status]. rewrite Hempty. simpl.
  rewrite forallb_filter_id by (apply forallb_forall; reflexivity).
  split; [reflexivity | apply sort_perm].
Qed.

(** C7. When the ledger holds versions that the declared list does not
    contain, the status computation still returns normally; each such
    version is among [appliedMigrations], is bounded by [currentVersion],
    and is the version of no pending migration. *)
Theorem getMigrationStatus_unknown_versions (migrations : list Migration)
  (db : Database Store) :
  exists st db',
    getMigrationStatus E migrations db = (Ok st, db')
    /\ forall v,
         In v (versions (entries (state db))) ->
         ~ In v (map version migrations) ->
         In v (appliedMigrations st)
         /\ v <= currentVersion st
         /\ ~ In v (map version (pendingMigrations st)).
Proof.
  rewrite getMigrationStatus_eval.
  eexists. eexists. split; [reflexivity|].
  intros v Hv Hunknown.
  assert (Hsorted : StronglySorted Z.lt
            (Js.sort (fun a b => a - b)
               (Js.new_Set (versions (entries (state db))))))
    by apply ascending_set_sorted.
  assert (Hin : In v (Js.sort (fun a b => a - b)
                        (Js.new_Set (versions (entries (state db))))))
    by (apply ascending_set_In, Hv).
  split; [exact Hin|]. split.
  - cbn [currentVersion spec_status].
    apply last_is_max; [exact Hsorted| |exact Hin].
    intro Hnil. rewrite Hnil in Hin. exact Hin.
  - intro Hp. apply in_map_iff in Hp. destruct Hp as [m [Hm Hp]].
    apply pending_In in Hp. destruct Hp as [_ Hno].
    apply Hno. rewrite Hm. exact Hv.
Qed.

End Status.

(* ------------------------------------------------------------------ *)
(** ** The query loop ([query]) *)

Section Query.

Context {Store : Type} (E : Engine Store).

Lemma step_loop_captured (stmt : Statement) (cursor : list (list SqlValue))
  (acc : list Row) :
  fst (step_loop stmt cursor (columnNames stmt) acc) = columnNames stmt.
Proof.
  revert acc. induction cursor as [|current rest IH]; intros acc; simpl.
  - reflexivity.
  - destruct (List.length (columnNames stmt) =? 0)%nat; apply IH.
Qed.

(** C10. When the statement prepared for [sql] yields no row for the bound
    parameters, [query] returns empty [columns] and empty [rows], whatever
    result columns the statement has; as soon as there is a first row the
    statement's column names are what [columns] holds. *)
Theorem query_no_rows_no_columns (sql : string) (params : list SqlValue)
  (db : Database Store) (stmt : Statement) :
  engine_prepare E sql (state db) = Ok stmt ->
  (bindRows stmt params = Ok [] ->
   fst (query E sql params db) = Ok {| columns := []; rows := [] |})
  /\ (forall first rest,
        bindRows stmt params = Ok (first :: rest) ->
        fst (query E sql params db)
        = Ok {| columns := columnNames stmt;
                rows := map (getAsObject stmt) (first :: rest) |}).
Proof.
  intros Hprep. unfold query, bind, db_prepare. rewrite Hprep. split.
  - intros Hbind. rewrite Hbind. reflexivity.
  - intros first rest Hbind. rewrite Hbind.
    pose proof (step_loop_rows stmt (first :: rest) [] []) as Hrows.
    assert (Hcols : fst (step_loop stmt (first :: rest) [] [])
                    = columnNames stmt).
    { simpl. apply step_loop_captured. }
    destruct (step_loop stmt (first :: rest) [] []) as [cols rws].
    simpl in Hrows, Hcols. subst. reflexivity.
Qed.

End Query.

(* ------------------------------------------------------------------ *)
(** ** The scoped connection ([withConnection]) *)

Section Scoped.

Context {Store : Type} (E : Engine Store) (dirname : string -> string).

Lemma readFile_world (path : string) (w w1 : World Store)
  (r : Result (Db Store)) :
  readFile path w = (r, w1) ->
  files w1 = files w /\ events w1 = events w ++ [EvReadFile path].
Proof.
  unfold readFile. intros H.
  destruct (faults w (EvReadFile path)); [|destruct (files w path)];
    inversion H; subst; split; reflexivity.
Qed.

(** Loading writes no file, and logs at most the read of [path]. *)
Lemma loadDatabase_world (path : string) (w w1 : World Store)
  (r : Result (Database Store)) :
  loadDatabase E path w = (r, w1) ->
  files w1 = files w
  /\ (events w1 = events w \/ events w1 = events w ++ [EvReadFile path]).
Proof.
  unfold loadDatabase. destruct (path =? ":memory:")%string.
  - intros H. inversion H; subst. split; [reflexivity | left; reflexivity].
  - unfold try_catch, bind. destruct (readFile path w) as [rd w'] eqn:Hread.
    apply readFile_world in Hread. destruct Hread as [Hfiles Hevents].
    intros H. destruct rd as [buffer|error].
    + inversion H; subst. split; [exact Hfiles | right; exact Hevents].
    + destruct (is_enoent error); inversion H; subst;
        (split; [exact Hfiles | right; exact Hevents]).
Qed.

(** C9. When the callback raises inside [withConnection]: the promise
    rejects with the callback's own error, the handle has been closed (the
    close is the last call on it, and no export precedes it), and
    [saveDatabase] was not entered: the world is the one that loading left,
    whose files are untouched and whose log has gained at most the read of
    the database path. *)
Theorem withConnection_callback_raises {T : Type} (config : ConnectionConfig)
  (fn : ConnectionCallback (Store := Store) T) (w w1 : World Store)
  (db db1 : Database Store) (error : Exn) :
  loadDatabase E (dbPath config) w = (Ok db, w1) ->
  fn db = (Throw error, db1) ->
  withConnection E dirname config fn w
  = (Throw error, Some (db_close db1), w1)
  /\ journal (db_close db1) = journal db1 ++ [CallClose]
  /\ files w1 = files w
  /\ (events w1 = events w
      \/ events w1 = events w ++ [EvReadFile (dbPath config)])
  /\ forall path, In (EvSaveDatabase path) (events w1) ->
                  In (EvSaveDatabase path) (events w).
Proof.
  intros Hload Hfn.
  destruct (loadDatabase_world _ _ Hload) as [Hfiles Hevents].
  split.
  - unfold withConnection. rewrite Hload.
    unfold try_finally, bind, on_handle. cbn [fst snd]. rewrite Hfn.
    reflexivity.
  - split; [reflexivity|]. split; [exact Hfiles|]. split; [exact Hevents|].
    intros path Hin. destruct Hevents as [Heq|Heq]; rewrite Heq in Hin.
    + exact Hin.
    + apply in_app_or in Hin. destruct Hin as [Hin|[Hin|[]]];
        [exact Hin | discriminate].
Qed.

End Scoped.

(* ------------------------------------------------------------------ *)
(** ** The apply loop ([runMigrations]) *)

Section Apply.

Context {Store : Type} (E : Engine Store).

Lemma run_pending_step_ok (m : Migration) (rest acc : list Migration)
  (d d1 d2 : Database Store) :
  db_exec E (up m) d = (Ok tt, d1) ->
  db_run E INSERT_LEDGER_SQL (insert_params m) d1 = (Ok tt, d2) ->
  run_pending E (m :: rest) acc d = run_pending E rest (acc ++ [m]) d2.
Proof.
  intros Hup Hins. cbn [run_pending].
  unfold bind at 1. unfold try_catch, execMultiple, execute.
  unfold bind at 1. rewrite Hup.
  unfold bind at 1. unfold bind at 1.
  change [SNum (version m); SText (description m)] with (insert_params m).
  rewrite Hins. reflexivity.
Qed.

Lemma run_pending_step_fails (m : Migration) (rest acc : list Migration)
  (d d' : Database Store) (error : Exn) :
  Fails E m error d d' ->
  run_pending E (m :: rest) acc d = (Throw (apply_failed m error), d').
Proof.
  intros [Hup | [d1 [Hup Hins]]]; cbn [run_pending];
    unfold bind at 1; unfold try_catch, execMultiple, execute;
    unfold bind at 1; rewrite Hup.
  - reflexivity.
  - unfold bind at 1. unfold bind at 1.
    change [SNum (version m); SText (description m)] with (insert_params m).
    rewrite Hins. reflexivity.
Qed.


Lemma Applied_app (xs ys : list Migration) (d d1 d2 : Database Store) :
  Applied E xs d d1 -> Applied E ys d1 d2 -> Applied E (xs ++ ys) d d2.
Proof.
  induction 1; intros Hys; simpl; [exact Hys|].
  econstructor; eauto.
Qed.

(** Every run of the loop either applies the whole list, or applies a
    prefix of it and fails on the next migration. *)
Lemma run_pending_cases (ms acc : list Migration) (d : Database Store) :
  (exists d', Applied E ms d d'
              /\ run_pending E ms acc d = (Ok (acc ++ ms), d'))
  \/ (exists done p rest error d1 d2,
        ms = done ++ p :: rest
        /\ Applied E done d d1
        /\ Fails E p error d1 d2
        /\ run_pending E ms acc d = (Throw (apply_failed p error), d2)).
Proof.
  revert acc d. induction ms as [|m ms IH]; intros acc d.
  - left. exists d. split; [constructor|].
    simpl. rewrite app_nil_r. reflexivity.
  - destruct (db_exec E (up m) d) as [[[]|e] d1] eqn:Hup.
    + destruct (db_run E INSERT_LEDGER_SQL (insert_params m) d1)
        as [[[]|e] d2] eqn:Hins.
      * rewrite (@run_pending_step_ok _ _ _ _ _ _ Hup Hins).
        destruct (IH (acc ++ [m]) d2)
          as [[d' [Happ Hrun]]
             |[done [p [rest [error [da [db [Hms [Happ [Hf Hrun]]]]]]]]]].
        -- left. exists d'. split; [econstructor; eauto|].
           rewrite Hrun, <- app_assoc. reflexivity.
        -- right. exists (m :: done), p, rest, error, da, db.
           split; [rewrite Hms; reflexivity|].
           split; [econstructor; eauto|]. split; [exact Hf | exact Hrun].
      * right. exists [], m, ms, e, d, d2.
        split; [reflexivity|]. split; [constructor|].
        assert (Hf : Fails E m e d d2) by (right; exists d1; auto).
        split; [exact Hf | apply run_pending_step_fails, Hf].
    + right. exists [], m, ms, e, d, d1.
      split; [reflexivity|]. split; [constructor|].
      assert (Hf : Fails E m e d d1) by (left; exact Hup).
      split; [exact Hf | apply run_pending_step_fails, Hf].
Qed.

(** *** What the two calls do to the ledger and to the journal *)

Lemma db_exec_journal (sql : string) (d d' : Database Store)
  (r : Result unit) :
  db_exec E sql d = (r, d') -> journal d' = journal d ++ [CallExec sql].
Proof.
  unfold db_exec. destruct (engine_exec E sql (state d)).
  intros H. inversion H; subst. reflexivity.
Qed.

Lemma db_run_journal (sql : string) (params : list SqlValue)
  (d d' : Database Store) (r : Result unit) :
  db_run E sql params d = (r, d') ->
  journal d' = journal d ++ [CallRun sql params].
Proof.
  unfold db_run. destruct (engine_run E sql params (state d)).
  intros H. inversion H; subst. reflexivity.
Qed.

Lemma db_exec_ledger (sql : string) (d d' : Database Store)
  (r : Result unit) :
  ledger_safe E sql -> ledger (state d) <> None ->
  db_exec E sql d = (r, d') -> ledger (state d') = ledger (state d).
Proof.
  intros Hsafe Hpresent. unfold db_exec.
  specialize (Hsafe (state d) Hpresent).
  destruct (engine_exec E sql (state d)) as [r' s'].
  intros H. inversion H; subst. exact Hsafe.
Qed.

Lemma engine_run_insert (m : Migration) (s : Db Store) :
  engine_run E INSERT_LEDGER_SQL (insert_params m) s
  = insert_ledger (version m) (description m) s.
Proof.
  unfold engine_run. rewrite String.eqb_refl. reflexivity.
Qed.

Lemma db_run_insert_ok (m : Migration) (d d' : Database Store) :
  db_run E INSERT_LEDGER_SQL (insert_params m) d = (Ok tt, d') ->
  ledger (state d) <> None
  /\ ~ In (version m) (versions (entries (state d)))
  /\ ledger (state d') <> None
  /\ recorded (state d') = recorded (state d) ++ [record_of m]
  /\ store (state d') = store (state d).
Proof.
  unfold db_run. rewrite engine_run_insert. unfold insert_ledger.
  unfold recorded, entries.
  destruct (ledger (state d)) as [es|] eqn:Hl; [|discriminate].
  destruct (has_version (version m) es) eqn:Hhas; [discriminate|].
  intros H. inversion H; subst. cbn [state ledger store record_call].
  split; [discriminate|]. split.
  - intro Hin. apply not_true_iff_false in Hhas. apply Hhas.
    unfold has_version. apply existsb_exists.
    apply in_map_iff in Hin. destruct Hin as [e [He Hin]].
    exists e. split; [exact Hin | apply Z.eqb_eq, He].
  - split; [discriminate|]. split; [|reflexivity].
    rewrite map_app. reflexivity.
Qed.

Lemma db_run_insert_fails (m : Migration) (d d' : Database Store)
  (error : Exn) :
  db_run E INSERT_LEDGER_SQL (insert_params m) d = (Throw error, d') ->
  state d' = state d.
Proof.
  unfold db_run. rewrite engine_run_insert. unfold insert_ledger.
  destruct (ledger (state d)) as [es|].
  - destruct (has_version (version m) es); intros H; inversion H; subst;
      reflexivity.
  - intros H. inversion H; subst. reflexivity.
Qed.

Lemma recorded_ledger (s s' : Db Store) :
  ledger s' = ledger s -> recorded s' = recorded s.
Proof.
  unfold recorded, entries. intros ->. reflexivity.
Qed.

Lemma Applied_recorded (done : list Migration) (d d' : Database Store) :
  (forall m, In m done -> ledger_safe E (up m)) ->
  ledger (state d) <> None ->
  Applied E done d d' ->
  ledger (state d') <> None
  /\ recorded (state d') = recorded (state d) ++ map record_of done.
Proof.
  intros Hsafe Hpresent H.
  induction H as [d|m ms d d1 d2 d3 Hup Hins _ IH].
  - split; [exact Hpresent|]. simpl. rewrite app_nil_r. reflexivity.
  - pose proof (@db_exec_ledger _ _ _ _ (Hsafe m (or_introl eq_refl)) Hpresent Hup)
      as Hl1.
    destruct (@db_run_insert_ok _ _ _ Hins) as [_ [_ [Hp2 [Hrec _]]]].
    destruct IH as [Hp3 Hrec3];
      [intros x Hx; apply Hsafe; right; exact Hx | exact Hp2 |].
    split; [exact Hp3|].
    rewrite Hrec3, Hrec, (@recorded_ledger _ _ Hl1), <- app_assoc.
    reflexivity.
Qed.

Lemma Fails_ledger (m : Migration) (error : Exn) (d d' : Database Store) :
  ledger_safe E (up m) -> ledger (state d) <> None ->
  Fails E m error d d' -> ledger (state d') = ledger (state d).
Proof.
  intros Hsafe Hpresent [Hup | [d1 [Hup Hins]]].
  - exact (@db_exec_ledger _ _ _ _ Hsafe Hpresent Hup).
  - rewrite (@db_run_insert_fails _ _ _ _ Hins).
    exact (@db_exec_ledger _ _ _ _ Hsafe Hpresent Hup).
Qed.

Lemma Applied_journal (done : list Migration) (d d' : Database Store) :
  Applied E done d d' -> journal d' = journal d ++ flat_map calls_of done.
Proof.
  induction 1 as [d|m ms d d1 d2 d3 Hup Hins _ IH].
  - simpl. rewrite app_nil_r. reflexivity.
  - rewrite IH, (@db_run_journal _ _ _ _ _ Hins), (@db_exec_journal _ _ _ _ Hup).
    simpl. rewrite <- !app_assoc. reflexivity.
Qed.

Lemma Fails_journal (m : Migration) (error : Exn) (d d' : Database Store) :
  Fails E m error d d' ->
  journal d' = journal d ++ [CallExec (up m)]
  \/ journal d' = journal d ++ calls_of m.
Proof.
  intros [Hup | [d1 [Hup Hins]]].
  - left. exact (@db_exec_journal _ _ _ _ Hup).
  - right. rewrite (@db_run_journal _ _ _ _ _ Hins), (@db_exec_journal _ _ _ _ Hup).
    rewrite <- app_assoc. reflexivity.
Qed.

Lemma after_status_present (db : Database Store) :
  ledger (state (after_status E db)) <> None.
Proof.
  unfold after_status. cbn [state].
  rewrite create_ledger_entries. discriminate.
Qed.

Lemma after_status_recorded (db : Database Store) :
  recorded (state (after_status E db)) = recorded (state db).
Proof.
  unfold after_status, recorded, entries. cbn [state].
  rewrite create_ledger_entries. reflexivity.
Qed.

End Apply.

Lemma filter_none {A : Type} (f : A -> bool) (l : list A) :
  (forall x, In x l -> f x = false) -> filter f l = [].
Proof.
  induction l as [|x xs IH]; intros H; simpl; [reflexivity|].
  rewrite (H x (or_introl eq_refl)). apply IH.
  intros y Hy. apply H. right; exact Hy.
Qed.

Section Runs.

Context {Store : Type} (E : Engine Store).

Lemma versions_recorded (s : Db Store) :
  versions (entries s) = map fst (recorded s).
Proof.
  unfold versions, recorded. rewrite map_map. reflexivity.
Qed.

(** After a run that returned, the ledger relation exists and holds the
    version of every declared migration. *)
Lemma runMigrations_returned (migrations applied : list Migration)
  (db d1 : Database Store) :
  (forall m, In m migrations -> ledger_safe E (up m)) ->
  runMigrations E migrations db = (Ok applied, d1) ->
  ledger (state d1) <> None
  /\ forall m, In m migrations -> In (version m) (versions (entries (state d1))).
Proof.
  intros Hsafe. unfold runMigrations, bind. rewrite getMigrationStatus_eval.
  set (st := spec_status (versions (entries (state db))) migrations).
  destruct (run_pending_cases E (pendingMigrations st) [] (after_status E db))
    as [[d' [Happ Hrun]]
       |[done [p [rest [error [da [db' [Hms [Happ [Hf Hrun]]]]]]]]]];
    rewrite Hrun; intros Heq; inversion Heq; subst.
  assert (Hpend : forall m, In m (pendingMigrations st) ->
                            ledger_safe E (up m)).
  { intros m Hm. apply Hsafe. apply pending_In in Hm. tauto. }
  destruct (@Applied_recorded Store E (pendingMigrations st)
              (after_status E db) d1 Hpend (after_status_present E db) Happ)
    as [Hpresent Hrec].
  split; [exact Hpresent|].
  intros m Hm. rewrite versions_recorded, Hrec, after_status_recorded.
  rewrite map_app, <- versions_recorded, map_map. apply in_or_app.
  destruct (in_dec Z.eq_dec (version m) (versions (entries (state db))))
    as [Hold|Hnew]; [left; exact Hold|].
  right. apply in_map_iff. exists m. split; [reflexivity|].
  apply pending_In. split; assumption.
Qed.


(** C3, as the code has it.  After any [runMigrations] call whose up scripts
    leave the ledger relation alone, the rows the call added to the ledger
    are exactly those of the migrations for which both the up script and the
    insert returned, in order: all pending ones when the call returns, and
    those before the failing one when it raises.  The failing migration has
    no row, whatever its up script did before the failure. *)
Theorem runMigrations_ledger_of_completed (migrations : list Migration)
  (db : Database Store) :
  (forall m, In m migrations -> ledger_safe E (up m)) ->
  exists st d0 done rest d1,
    getMigrationStatus E migrations db = (Ok st, d0)
    /\ pendingMigrations st = done ++ rest
    /\ Applied E done d0 d1
    /\ recorded (state (snd (runMigrations E migrations db)))
       = recorded (state db) ++ map record_of done
    /\ ((rest = [] /\ runMigrations E migrations db = (Ok done, d1))
        \/ exists pk rest' error d2,
             rest = pk :: rest'
             /\ Fails E pk error d1 d2
             /\ runMigrations E migrations db
                = (Throw (apply_failed pk error), d2)).
Proof.
  intros Hsafe.
  set (st := spec_status (versions (entries (state db))) migrations).
  assert (Hin : forall m, In m (pendingMigrations st) -> In m migrations).
  { intros m Hm. apply pending_In in Hm. tauto. }
  exists st, (after_status E db).
  unfold runMigrations, bind. rewrite getMigrationStatus_eval. fold st.
  destruct (run_pending_cases E (pendingMigrations st) [] (after_status E db))
    as [[d' [Happ Hrun]]
       |[done [p [rest [error [d1 [d2 [Hms [Happ [Hf Hrun]]]]]]]]]].
  - exists (pendingMigrations st), [], d'. rewrite Hrun. cbn [snd app].
    destruct (@Applied_recorded Store E (pendingMigrations st)
                (after_status E db) d'
                (fun m Hm => Hsafe m (Hin m Hm))
                (after_status_present E db) Happ) as [_ Hrec].
    rewrite app_nil_r, Hrec, after_status_recorded.
    repeat (split; [reflexivity || assumption|]). left. split; reflexivity.
  - exists done, (p :: rest), d1. rewrite Hrun. cbn [snd].
    assert (Hin' : forall m, In m (done ++ p :: rest) -> In m migrations).
    { intros m Hm. rewrite <- Hms in Hm. apply Hin, Hm. }
    assert (Hdone : forall m, In m done -> ledger_safe E (up m)).
    { intros m Hm. apply Hsafe, Hin', in_or_app. left; exact Hm. }
    destruct (@Applied_recorded Store E done (after_status E db) d1
                Hdone (after_status_present E db) Happ) as [Hpresent Hrec].
    rewrite (@recorded_ledger Store _ _ (@Fails_ledger Store E p error d1 d2
                                (Hsafe p (Hin' p (in_elt p done rest)))
                                Hpresent Hf)).
    rewrite Hrec, after_status_recorded.
    repeat (split; [reflexivity || assumption|]).
    right. exists p, rest, error, d2. repeat split; assumption.
Qed.

(** C5, as the code has it.  When [runMigrations] has returned, and the up
    scripts leave the ledger relation alone, running it again on the resulting handle with the
    same list returns the empty list; the engine state is unchanged, and the
    only calls made are the two of the status computation. *)
Theorem runMigrations_idempotent (migrations applied : list Migration)
  (db d1 : Database Store) :
  (forall m, In m migrations -> ledger_safe E (up m)) ->
  runMigrations E migrations db = (Ok applied, d1) ->
  exists d2,
    runMigrations E migrations d1 = (Ok [], d2)
    /\ state d2 = state d1
    /\ journal d2 = journal d1 ++ [CallExec MIGRATIONS_TABLE_SQL;
                                   CallPrepare SELECT_VERSIONS_SQL].
Proof.
  intros Hsafe Hrun.
  destruct (runMigrations_returned migrations db Hsafe Hrun)
    as [Hpresent Hall].
  exists (after_status E d1).
  unfold runMigrations, bind. rewrite getMigrationStatus_eval.
  unfold spec_status. cbn [pendingMigrations].
  replace (filter _ migrations) with (@nil Migration).
  - simpl. split; [reflexivity|]. split; [|reflexivity].
    unfold after_status. cbn [state]. apply create_ledger_present, Hpresent.
  - symmetry. apply filter_none.
    intros m Hm. apply negb_false_iff, existsb_exists.
    exists (version m). split; [apply Hall, Hm | apply Z.eqb_refl].
Qed.

End Runs.

Section Permuted.

Context {Store : Type} (E : Engine Store).

Lemma pending_permutation (applied : list Z) (l l' : list Migration) :
  Permutation l l' -> NoDup (map version l) ->
  pendingMigrations (spec_status applied l)
  = pendingMigrations (spec_status applied l')
  /\ StronglySorted (key_lt version) (pendingMigrations (spec_status applied l)).
Proof.
  intros Hperm Hnd.
  assert (Hnd' : NoDup (map version l')).
  { eapply Permutation_NoDup; [apply Permutation_map, Hperm | exact Hnd]. }
  assert (Hs : forall k, NoDup (map version k) ->
               StronglySorted (key_lt version)
                 (pendingMigrations (spec_status applied k))).
  { intros k Hk. unfold spec_status. cbn [pendingMigrations].
    apply (sort_sorted_strict version), filter_keys_NoDup, Hk. }
  split; [|apply Hs, Hnd].
  apply (@sorted_strict_unique Migration version); [apply Hs, Hnd | apply Hs, Hnd' |].
  intros m. rewrite !pending_In. split; intros [Hin Hno]; split;
    try exact Hno.
  - eapply Permutation_in; [exact Hperm | exact Hin].
  - eapply Permutation_in; [apply Permutation_sym, Hperm | exact Hin].
Qed.

End Permuted.

(* ------------------------------------------------------------------ *)
(** ** Rollback ([rollbackMigration]) *)

Lemma string_last_app (s t : string) (d : ascii) :
  string_last (s ++ t)%string d = string_last t (string_last s d).
Proof.
  revert d. induction s as [|c s IH]; intros d; simpl.
  - reflexivity.
  - apply IH.
Qed.

Lemma StronglySorted_app_inv {A : Type} (R : A -> A -> Prop)
  (l1 l2 : list A) :
  StronglySorted R (l1 ++ l2) ->
  StronglySorted R l1
  /\ forall x y, In x l1 -> In y l2 -> R x y.
Proof.
  induction l1 as [|a l1 IH]; simpl; intros H.
  - split; [constructor | intros x y []].
  - inversion H as [|a' l' Hs Ha]; subst.
    destruct (IH Hs) as [Hs1 Hcross].
    rewrite Forall_forall in Ha.
    split.
    + constructor; [exact Hs1|].
      rewrite Forall_forall. intros x Hx. apply Ha, in_or_app. left; exact Hx.
    + intros x y [Hx|Hx] Hy.
      * subst x. apply Ha, in_or_app. right; exact Hy.
      * apply Hcross; assumption.
Qed.

Lemma sorted_removelast (l : list Z) :
  StronglySorted Z.lt l -> l <> [] ->
  StronglySorted Z.lt (removelast l)
  /\ forall x, In x (removelast l) <-> In x l /\ x <> last l 0.
Proof.
  intros Hs Hne.
  pose proof (app_removelast_last 0 Hne) as Hsplit.
  set (r := removelast l) in *. set (a := last l 0) in *.
  rewrite Hsplit in Hs. destruct (StronglySorted_app_inv _ _ Hs) as [Hr Hlt].
  split; [exact Hr|].
  intros x. rewrite Hsplit, in_app_iff. simpl. split.
  - intros Hx. split; [left; exact Hx|].
    specialize (Hlt x a Hx (or_introl eq_refl)). lia.
  - intros [[Hx|[Hx|[]]] Hneq]; [exact Hx | congruence].
Qed.

Section Rollback.

Context {Store : Type} (E : Engine Store).

Lemma engine_run_delete (v : Z) (s : Db Store) :
  engine_run E DELETE_LEDGER_SQL [SNum v] s = delete_ledger v s.
Proof.
  reflexivity.
Qed.

(** The script that [rollbackMigration] hands to the engine. *)
Lemma rollbackMigration_eval (migrations : list Migration)
  (db : Database Store) :
  rollbackMigration E migrations db
  = let st := spec_status (versions (entries (state db))) migrations in
    let d0 := after_status E db in
    if currentVersion st =? 0 then (Ok None, d0)
    else
      match find (fun m => version m =? currentVersion st) migrations with
      | None => (Throw (not_found (currentVersion st)), d0)
      | Some m =>
          if no_down m then (Throw (no_down_migration m), d0)
          else
            match db_exec E (match down m with
                             | Some sql => sql
                             | None => ""
                             end) d0 with
            | (Throw error, d1) => (Throw (rollback_failed m error), d1)
            | (Ok _, d1) =>
                match db_run E DELETE_LEDGER_SQL [SNum (version m)] d1 with
                | (Throw error, d2) => (Throw (rollback_failed m error), d2)
                | (Ok _, d2) => (Ok (Some m), d2)
                end
            end
      end.
Proof.
  unfold rollbackMigration. unfold bind at 1.
  rewrite getMigrationStatus_eval. cbv zeta.
  destruct (currentVersion _ =? 0); [reflexivity|].
  destruct (find _ migrations) as [m|]; [|reflexivity].
  destruct (no_down m); [reflexivity|].
  unfold try_catch, execMultiple, execute. unfold bind at 1.
  destruct (db_exec E _ (after_status E db)) as [[u|error] d1];
    [|reflexivity].
  unfold bind at 1. unfold bind at 1.
  destruct (db_run E DELETE_LEDGER_SQL [SNum (version m)] d1)
    as [[u'|error] d2]; reflexivity.
Qed.

Lemma current_zero_of_empty (migrations : list Migration) (s : Db Store) :
  entries s = [] ->
  currentVersion (spec_status (versions (entries s)) migrations) = 0.
Proof.
  intros ->. reflexivity.
Qed.

Lemma current_nonzero_present (migrations : list Migration) (s : Db Store) :
  currentVersion (spec_status (versions (entries s)) migrations) <> 0 ->
  ledger s <> None.
Proof.
  intros Hcv Hnone. apply Hcv. apply current_zero_of_empty.
  unfold entries. rewrite Hnone. reflexivity.
Qed.

Lemma db_run_delete (v : Z) (d d' : Database Store) (r : Result unit) :
  ledger (state d) <> None ->
  db_run E DELETE_LEDGER_SQL [SNum v] d = (r, d') ->
  r = Ok tt
  /\ entries (state d')
     = filter (fun e => negb (entry_version e =? v)) (entries (state d))
  /\ store (state d') = store (state d)
  /\ journal d' = journal d ++ [CallRun DELETE_LEDGER_SQL [SNum v]].
Proof.
  intros Hpresent. unfold db_run. rewrite engine_run_delete.
  unfold delete_ledger, entries.
  destruct (ledger (state d)) as [es|]; [|congruence].
  intros H. inversion H; subst. cbn [state ledger store record_call journal].
  repeat split.
Qed.

End Rollback.

Section RollbackSteps.

Context {Store : Type} (E : Engine Store).

Lemma messages_distinct (v : Z) (m : Migration) :
  not_found v <> no_down_migration m.
Proof.
  unfold not_found, no_down_migration. intros H. injection H as Hs.
  apply (f_equal (fun s => string_last s "000"%char)) in Hs.
  rewrite !string_last_app in Hs. simpl in Hs.
  rewrite string_last_app in Hs. simpl in Hs. discriminate.
Qed.

Lemma find_absent (v : Z) (migrations : list Migration) :
  ~ In v (map version migrations) ->
  find (fun m => version m =? v) migrations = None.
Proof.
  intros Habsent.
  destruct (find (fun m => version m =? v) migrations) as [m|] eqn:Hfind;
    [|reflexivity].
  exfalso. apply find_some in Hfind. destruct Hfind as [Hin Heq].
  apply Habsent. apply in_map_iff. exists m.
  split; [apply Z.eqb_eq, Heq | exact Hin].
Qed.

(** C8. When the ledger's current version is not 0: if no declared
    migration has that version, [rollbackMigration] raises "Migration
    <version> not found in migrations list"; if the declared migration with
    that version has no down script (absent, or empty), it raises "Migration
    <version> (<description>) has no down migration".  The two errors are
    different, and in both cases the handle is left as the status
    computation left it: the engine state (ledger, store, counters) is the
    one before the call, and no script and no delete reached the engine. *)
Theorem rollbackMigration_preconditions (migrations : list Migration)
  (st : MigrationStatus) (db d0 : Database Store) :
  getMigrationStatus E migrations db = (Ok st, d0) ->
  currentVersion st <> 0 ->
  (~ In (currentVersion st) (map version migrations) ->
   rollbackMigration E migrations db
   = (Throw (Error ("Migration " ++ show (currentVersion st)
                    ++ " not found in migrations list")%string), d0))
  /\ (forall m,
        find (fun m => version m =? currentVersion st) migrations = Some m ->
        down m = None \/ down m = Some ""%string ->
        rollbackMigration E migrations db
        = (Throw (Error ("Migration " ++ show (version m) ++ " ("
                         ++ description m
                         ++ ") has no down migration")%string), d0))
  /\ state d0 = state db
  /\ journal d0 = journal db ++ [CallExec MIGRATIONS_TABLE_SQL;
                                 CallPrepare SELECT_VERSIONS_SQL]
  /\ forall v m, not_found v <> no_down_migration m.
Proof.
  intros Hstatus Hcv.
  rewrite getMigrationStatus_eval in Hstatus. inversion Hstatus; subst st d0.
  apply Z.eqb_neq in Hcv.
  split; [|split; [|split; [|split]]].
  - intros Habsent. rewrite rollbackMigration_eval. cbv zeta.
    rewrite Hcv, (find_absent _ _ Habsent). reflexivity.
  - intros m Hfind Hdown. rewrite rollbackMigration_eval. cbv zeta.
    rewrite Hcv, Hfind.
    assert (Hno : no_down m = true).
    { unfold no_down. destruct Hdown as [-> | ->]; reflexivity. }
    rewrite Hno. reflexivity.
  - unfold after_status. cbn [state]. apply create_ledger_present.
    apply Z.eqb_neq in Hcv. exact (current_nonzero_present _ _ Hcv).
  - reflexivity.
  - apply messages_distinct.
Qed.

Lemma applied_after_delete (es : list LedgerEntry) :
  versions es <> [] ->
  Js.sort (fun a b => a - b)
    (Js.new_Set
       (versions
          (filter (fun e => negb (entry_version e
                                  =? last (Js.sort (fun a b => a - b)
                                             (Js.new_Set (versions es))) 0))
                  es)))
  = removelast (Js.sort (fun a b => a - b) (Js.new_Set (versions es))).
Proof.
  intros Hne.
  set (S := Js.sort (fun a b => a - b) (Js.new_Set (versions es))).
  assert (HS : StronglySorted Z.lt S) by apply ascending_set_sorted.
  assert (HSne : S <> []).
  { intro Hnil. destruct (versions es) as [|a l] eqn:Hv; [congruence|].
    assert (Hin : In a S) by (apply ascending_set_In; left; reflexivity).
    rewrite Hnil in Hin. exact Hin. }
  destruct (sorted_removelast HS HSne) as [Hr Hmem].
  apply (@sorted_strict_unique Z (fun v : Z => v)).
  - apply ascending_set_sorted.
  - exact Hr.
  - intros x. rewrite ascending_set_In, Hmem.
    pose proof (ascending_set_In (versions es) x) as Hx. fold S in Hx.
    rewrite Hx. fold S. unfold versions.
    rewrite !in_map_iff. split.
    + intros [e [He Hin]]. apply filter_In in Hin. destruct Hin as [Hin Hk].
      apply negb_true_iff, Z.eqb_neq in Hk. subst x.
      split; [exists e; auto | exact Hk].
    + intros [[e [He Hin]] Hneq]. exists e. split; [exact He|].
      apply filter_In. split; [exact Hin|].
      apply negb_true_iff, Z.eqb_neq. rewrite He. exact Hneq.
Qed.

(** C2, as the code has it.  [rollbackMigration] reverts at most one version
    per call.
    - When the current version is 0, as it is on an empty ledger, it returns
      [None] and reverts nothing: store and ledger rows are those before the
      call, and the engine saw only the status computation, which leaves the
      engine state untouched when the ledger relation already existed and
      creates it, empty, otherwise.
    - When the current version is not 0, the declared migration [m] with that
      version has a down script that leaves the ledger relation alone, and
      that script returns, the call returns [m]: its version is the largest
      in the ledger, the ledger loses the rows of that version and no other,
      the engine saw that one script and one delete, and the next status has
      the former applied versions without their last.
    - Whatever the outcome, provided the down scripts leave the ledger
      relation alone, every ledger row of another version is still there, and
      at most one down script and one delete reached the engine. *)
Theorem rollbackMigration_single_step (migrations : list Migration)
  (st : MigrationStatus) (db d0 : Database Store) :
  getMigrationStatus E migrations db = (Ok st, d0) ->
  (entries (state db) = [] -> currentVersion st = 0)
  /\ (currentVersion st = 0 ->
      rollbackMigration E migrations db = (Ok None, d0)
      /\ store (state d0) = store (state db)
      /\ entries (state d0) = entries (state db)
      /\ (ledger (state db) <> None -> state d0 = state db)
      /\ journal d0 = journal db ++ [CallExec MIGRATIONS_TABLE_SQL;
                                     CallPrepare SELECT_VERSIONS_SQL])
  /\ (forall m sql d1,
        currentVersion st <> 0 ->
        find (fun m => version m =? currentVersion st) migrations = Some m ->
        down m = Some sql -> sql <> ""%string ->
        ledger_safe E sql ->
        db_exec E sql d0 = (Ok tt, d1) ->
        exists d2,
          rollbackMigration E migrations db = (Ok (Some m), d2)
          /\ version m = currentVersion st
          /\ (forall v, In v (versions (entries (state db))) -> v <= version m)
          /\ entries (state d2)
             = filter (fun e => negb (entry_version e =? version m))
                      (entries (state db))
          /\ store (state d2) = store (state d1)
          /\ journal d2
             = journal d0 ++ [CallExec sql;
                              CallRun DELETE_LEDGER_SQL [SNum (version m)]]
          /\ forall st' d', getMigrationStatus E migrations d2 = (Ok st', d') ->
               appliedMigrations st' = removelast (appliedMigrations st)
               /\ currentVersion st' = last (removelast (appliedMigrations st)) 0)
  /\ ((forall m sql, In m migrations -> down m = Some sql -> ledger_safe E sql) ->
      (forall e, In e (entries (state db)) ->
                 entry_version e <> currentVersion st ->
                 In e (entries (state (snd (rollbackMigration E migrations db)))))
      /\ (journal (snd (rollbackMigration E migrations db)) = journal d0
          \/ exists m sql,
               find (fun m => version m =? currentVersion st) migrations = Some m
               /\ down m = Some sql
               /\ (journal (snd (rollbackMigration E migrations db))
                   = journal d0 ++ [CallExec sql]
                   \/ journal (snd (rollbackMigration E migrations db))
                      = journal d0
                        ++ [CallExec sql;
                            CallRun DELETE_LEDGER_SQL [SNum (version m)]]))).
Proof.
  intros Hstatus.
  rewrite getMigrationStatus_eval in Hstatus. inversion Hstatus; subst st d0.
  clear Hstatus.
  set (st := spec_status (versions (entries (state db))) migrations).
  assert (Hd0 : entries (state (after_status E db)) = entries (state db)).
  { unfold after_status, entries at 1. cbn [state].
    rewrite create_ledger_entries. reflexivity. }
  split; [apply current_zero_of_empty|].
  split; [|split].
  - intros Hcv. rewrite rollbackMigration_eval. cbv zeta. fold st.
    rewrite Hcv. simpl.
    split; [reflexivity|]. split; [apply create_ledger_store|].
    split; [exact Hd0|]. split; [|reflexivity].
    intros Hpresent. apply create_ledger_present, Hpresent.
  - intros m sql d1 Hcv Hfind Hdown Hsql Hsafe Hexec.
    pose proof (current_nonzero_present _ _ Hcv) as Hpresent.
    assert (Hp0 : ledger (state (after_status E db)) <> None)
      by apply after_status_present.
    pose proof (@db_exec_ledger Store E sql _ _ _ Hsafe Hp0 Hexec) as Hl1.
    assert (Hp1 : ledger (state d1) <> None) by (rewrite Hl1; exact Hp0).
    destruct (db_run E DELETE_LEDGER_SQL [SNum (version m)] d1)
      as [r d2] eqn:Hdel.
    destruct (@db_run_delete Store E _ _ _ _ Hp1 Hdel)
      as [Hr [Hent [Hstore Hj]]]. subst r.
    assert (Hvm : version m = currentVersion st).
    { apply find_some in Hfind. apply Z.eqb_eq, Hfind. }
    assert (He1 : entries (state d1) = entries (state db)).
    { unfold entries at 1. rewrite Hl1. exact Hd0. }
    assert (Hne : versions (entries (state db)) <> []).
    { intro Hnil. apply Hcv. unfold st. rewrite Hnil. reflexivity. }
    exists d2. split.
    { rewrite rollbackMigration_eval. cbv zeta. fold st.
      apply Z.eqb_neq in Hcv. rewrite Hcv, Hfind.
      unfold no_down. rewrite Hdown.
      apply String.eqb_neq in Hsql. rewrite Hsql, Hexec, Hdel. reflexivity. }
    split; [exact Hvm|]. split.
    { intros v Hv. rewrite Hvm. cbn [currentVersion st spec_status].
      apply last_is_max.
      - apply ascending_set_sorted.
      - intro Hnil. apply ascending_set_In in Hv. rewrite Hnil in Hv.
        exact Hv.
      - apply ascending_set_In, Hv. }
    split; [rewrite Hent, He1; reflexivity|].
    split; [exact Hstore|]. split.
    { rewrite Hj, (@db_exec_journal Store E _ _ _ _ Hexec), <- app_assoc.
      reflexivity. }
    intros st' d' Hst'. rewrite getMigrationStatus_eval in Hst'.
    inversion Hst'; subst st' d'.
    cbn [appliedMigrations currentVersion spec_status st].
    rewrite Hent, He1, Hvm. cbn [currentVersion st spec_status].
    rewrite (applied_after_delete _ Hne). split; reflexivity.
  - intros Hsafe. rewrite rollbackMigration_eval. cbv zeta. fold st.
    destruct (currentVersion st =? 0) eqn:Hcv.
    { cbn [snd]. split; [|left; reflexivity].
      intros e He _. rewrite Hd0. exact He. }
    destruct (find _ migrations) as [m|] eqn:Hfind.
    2:{ cbn [snd]. split; [|left; reflexivity].
        intros e He _. rewrite Hd0. exact He. }
    destruct (no_down m) eqn:Hno.
    { cbn [snd]. split; [|left; reflexivity].
      intros e He _. rewrite Hd0. exact He. }
    unfold no_down in Hno.
    destruct (down m) as [sql|] eqn:Hdown; [|discriminate].
    apply Z.eqb_neq in Hcv.
    assert (Hp0 : ledger (state (after_status E db)) <> None)
      by apply after_status_present.
    assert (Hin : In m migrations) by (apply find_some in Hfind; tauto).
    assert (Hvm : version m = currentVersion st).
    { apply find_some in Hfind. apply Z.eqb_eq, Hfind. }
    destruct (db_exec E sql (after_status E db)) as [r d1] eqn:Hexec.
    pose proof (@db_exec_ledger Store E sql _ _ _ (Hsafe m sql Hin Hdown)
                  Hp0 Hexec) as Hl1.
    assert (He1 : entries (state d1) = entries (state db)).
    { unfold entries at 1. rewrite Hl1. exact Hd0. }
    pose proof (@db_exec_journal Store E _ _ _ _ Hexec) as Hj1.
    destruct r as [u|error].
    + assert (Hp1 : ledger (state d1) <> None) by (rewrite Hl1; exact Hp0).
      destruct (db_run E DELETE_LEDGER_SQL [SNum (version m)] d1)
        as [r d2] eqn:Hdel.
      destruct (@db_run_delete Store E _ _ _ _ Hp1 Hdel)
        as [Hr [Hent [_ Hj]]]. subst r. cbn [snd]. split.
      * intros e He Hneq. rewrite Hent, He1. apply filter_In.
        split; [exact He|]. apply negb_true_iff, Z.eqb_neq. congruence.
      * right. exists m, sql. split; [reflexivity|]. split; [exact Hdown|].
        right. rewrite Hj, Hj1, <- app_assoc. reflexivity.
    + cbn [snd]. split.
      * intros e He _. rewrite He1. exact He.
      * right. exists m, sql. split; [reflexivity|]. split; [exact Hdown|].
        left. exact Hj1.
Qed.

End RollbackSteps.

(* ------------------------------------------------------------------ *)
(** ** Concrete runs on the miniature engine *)

Lemma mini_scripts_ledger_safe (sql : string) : ledger_safe Mini.engine sql.
Proof.
  intros s Hpresent. unfold engine_exec.
  destruct (sql =? MIGRATIONS_TABLE_SQL)%string.
  - cbn [snd]. rewrite create_ledger_present by exact Hpresent. reflexivity.
  - cbn [script Mini.engine].
    destruct (Mini.all (Mini.split ";" sql) (store s)). reflexivity.
Qed.

(** The scenario of the design's section 8: one migration applied to a
    fresh in-memory handle creates its table, and rolling back drops it. *)
Example apply_then_rollback :
  fst (runMigrations Mini.engine [Mini.m1] Mini.fresh) = Ok [Mini.m1]
  /\ fst (tableExists Mini.engine "t"
            (snd (runMigrations Mini.engine [Mini.m1] Mini.fresh))) = Ok true
  /\ fst (rollbackMigration Mini.engine [Mini.m1]
            (snd (runMigrations Mini.engine [Mini.m1] Mini.fresh)))
     = Ok (Some Mini.m1)
  /\ fst (tableExists Mini.engine "t"
            (snd (rollbackMigration Mini.engine [Mini.m1]
                    (snd (runMigrations Mini.engine [Mini.m1] Mini.fresh)))))
     = Ok false.
Proof.
  repeat split; vm_compute; reflexivity.
Qed.

(** C10 at the version query on an empty ledger: the statement has the
    column [version], the result has no column. *)
Lemma query_no_rows_no_columns_witness :
  exists stmt,
    engine_prepare Mini.engine SELECT_VERSIONS_SQL
      (state (after_status Mini.engine Mini.fresh)) = Ok stmt
    /\ columnNames stmt = ["version"]
    /\ fst (query Mini.engine SELECT_VERSIONS_SQL []
              (after_status Mini.engine Mini.fresh))
       = Ok {| columns := []; rows := [] |}.
Proof.
  eexists. split; [reflexivity|]. split; [reflexivity|].
  apply (proj1 (@query_no_rows_no_columns _ Mini.engine SELECT_VERSIONS_SQL []
                  (after_status Mini.engine Mini.fresh) _ eq_refl)).
  reflexivity.
Defined.

(** C9 at a callback that creates a table and raises, on a path with no
    file: the error comes back, the handle is closed, nothing is written. *)
Lemma withConnection_callback_raises_witness :
  exists db1 w1,
    withConnection Mini.engine (fun p => p) {| dbPath := "app.db" |}
      Mini.create_then_raise Mini.empty_world
    = (Throw (Error "boom"), Some (db_close db1), w1)
    /\ journal (db_close db1)
       = [CallExec "CREATE TABLE t(id INTEGER)"; CallClose]
    /\ events w1 = [EvReadFile "app.db"]
    /\ files w1 "app.db" = None.
Proof.
  pose (db := new_Database (blank Mini.engine)).
  pose (w1 := log (EvReadFile "app.db") Mini.empty_world).
  pose (db1 := snd (Mini.create_then_raise db)).
  destruct (@withConnection_callback_raises _ Mini.engine (fun p => p) unit
              {| dbPath := "app.db" |} Mini.create_then_raise
              Mini.empty_world w1 db db1 (Error "boom") eq_refl eq_refl)
    as [Hrun [Hclosed [Hfiles _]]].
  exists db1, w1. split; [exact Hrun|]. split; [exact Hclosed|].
  split; [reflexivity|]. rewrite Hfiles. reflexivity.
Defined.


(** C5 at the three migrations: the second run returns the empty list. *)
Lemma runMigrations_idempotent_witness :
  exists d2,
    runMigrations Mini.engine [Mini.m1; Mini.m2; Mini.m3] Mini.migrated
    = (Ok [], d2)
    /\ state d2 = state Mini.migrated.
Proof.
  destruct (@runMigrations_idempotent _ Mini.engine
              [Mini.m1; Mini.m2; Mini.m3] [Mini.m1; Mini.m2; Mini.m3]
              Mini.fresh Mini.migrated
              (fun m _ => mini_scripts_ledger_safe (up m)) eq_refl)
    as [d2 [Hrun [Hstate _]]].
  exists d2. split; [exact Hrun | exact Hstate].
Defined.


(** C3 as stated fails: applying [m1; m2_bad] to a fresh handle, the up
    script of [m2_bad] reaches the engine and its first statement creates
    table [u]; the second statement fails, so the ledger never gets a row
    for version 2, and the run ends with [u] in the schema and only version
    1 in the ledger. *)
Lemma runMigrations_not_atomic :
  fst (runMigrations Mini.engine [Mini.m1; Mini.m2_bad] Mini.fresh)
  = Throw (Error
      "Failed to apply migration 2 (create u): no such table: missing")
  /\ journal (snd (runMigrations Mini.engine [Mini.m1; Mini.m2_bad] Mini.fresh))
     = [CallExec MIGRATIONS_TABLE_SQL; CallPrepare SELECT_VERSIONS_SQL;
        CallExec (up Mini.m1);
        CallRun INSERT_LEDGER_SQL (insert_params Mini.m1);
        CallExec (up Mini.m2_bad)]
  /\ store (state (snd (runMigrations Mini.engine [Mini.m1; Mini.m2_bad]
                          Mini.fresh)))
     = ["t"; "u"]
  /\ recorded (state (snd (runMigrations Mini.engine [Mini.m1; Mini.m2_bad]
                             Mini.fresh)))
     = [(1, "create t")].
Proof.
  repeat split; vm_compute; reflexivity.
Qed.

(** C3, as the code has it, at [m1; m2_bad]: the one row added is that of
    [m1], the migration whose two calls both returned. *)
Lemma runMigrations_ledger_of_completed_witness :
  exists done,
    recorded (state (snd (runMigrations Mini.engine [Mini.m1; Mini.m2_bad]
                            Mini.fresh)))
    = recorded (state Mini.fresh) ++ map record_of done
    /\ exists d0 d1, Applied Mini.engine done d0 d1.
Proof.
  destruct (@runMigrations_ledger_of_completed _ Mini.engine
              [Mini.m1; Mini.m2_bad] Mini.fresh
              (fun m _ => mini_scripts_ledger_safe (up m)))
    as [st [d0 [done [rest [d1 [_ [_ [Happ [Hrec _]]]]]]]]].
  exists done. split; [exact Hrec|]. exists d0, d1. exact Happ.
Defined.

(** C8 at a ledger whose current version is 4: with [m4], which has no down
    script, and with a declared list that does not contain version 4. *)
Lemma rollbackMigration_preconditions_witness :
  (rollbackMigration Mini.engine [Mini.m4] Mini.migrated4
   = (Throw (Error "Migration 4 (create x) has no down migration"),
      after_status Mini.engine Mini.migrated4)
   /\ state (after_status Mini.engine Mini.migrated4) = state Mini.migrated4)
  /\ rollbackMigration Mini.engine [Mini.m1] Mini.migrated4
     = (Throw (Error "Migration 4 not found in migrations list"),
        after_status Mini.engine Mini.migrated4).
Proof.
  assert (Hcv : 4 <> 0) by discriminate.
  split.
  - destruct (@rollbackMigration_preconditions _ Mini.engine [Mini.m4]
                (spec_status [4] [Mini.m4]) Mini.migrated4
                (after_status Mini.engine Mini.migrated4) eq_refl Hcv)
      as [_ [Hnodown [Hstate _]]].
    split; [|exact Hstate].
    exact (Hnodown Mini.m4 eq_refl (or_introl eq_refl)).
  - destruct (@rollbackMigration_preconditions _ Mini.engine [Mini.m1]
                (spec_status [4] [Mini.m1]) Mini.migrated4
                (after_status Mini.engine Mini.migrated4) eq_refl Hcv)
      as [Hnotfound _].
    apply Hnotfound. simpl. intros [H|[]]. discriminate H.
Defined.

(** C2 at the ledger holding versions 1, 2 and 3: one call reverts version
    3 only and the current version becomes 2; a second call reverts version
    2 only. *)
Lemma rollbackMigration_single_step_witness :
  exists d2 d3,
    rollbackMigration Mini.engine [Mini.m1; Mini.m2; Mini.m3] Mini.migrated
    = (Ok (Some Mini.m3), d2)
    /\ recorded (state d2) = [(1, "create t"); (2, "create u")]
    /\ (forall st' d', getMigrationStatus Mini.engine
                         [Mini.m1; Mini.m2; Mini.m3] d2 = (Ok st', d') ->
                       currentVersion st' = 2)
    /\ rollbackMigration Mini.engine [Mini.m1; Mini.m2; Mini.m3] d2
       = (Ok (Some Mini.m2), d3)
    /\ recorded (state d3) = [(1, "create t")].
Proof.
  pose (L := [Mini.m1; Mini.m2; Mini.m3]).
  pose (d0 := after_status Mini.engine Mini.migrated).
  pose (d1 := snd (db_exec Mini.engine "DROP TABLE w" d0)).
  assert (H3 : 3 <> 0) by discriminate.
  assert (H2 : 2 <> 0) by discriminate.
  assert (Hw : "DROP TABLE w"%string <> ""%string) by discriminate.
  assert (Hu : "DROP TABLE u"%string <> ""%string) by discriminate.
  destruct (@rollbackMigration_single_step _ Mini.engine L
              (spec_status [1; 2; 3] L) Mini.migrated d0 eq_refl)
    as [_ [_ [Hstep _]]].
  destruct (Hstep Mini.m3 "DROP TABLE w"%string d1 H3 eq_refl eq_refl Hw
              (mini_scripts_ledger_safe _) eq_refl)
    as [d2 [Hrun [_ [_ [Hent [_ [_ Hnext]]]]]]].
  pose (e0 := after_status Mini.engine d2).
  pose (e1 := snd (db_exec Mini.engine "DROP TABLE u" e0)).
  assert (Hd2 : state d2 = state (snd (rollbackMigration Mini.engine L
                                         Mini.migrated))).
  { rewrite Hrun. reflexivity. }
  assert (Hst2 : getMigrationStatus Mini.engine L d2
                 = (Ok (spec_status [1; 2] L), e0)).
  { rewrite getMigrationStatus_eval. unfold e0.
    unfold recorded, versions. rewrite Hent. reflexivity. }
  destruct (@rollbackMigration_single_step _ Mini.engine L
              (spec_status [1; 2] L) d2 e0 Hst2)
    as [_ [_ [Hstep2 _]]].
  assert (Hexec2 : db_exec Mini.engine "DROP TABLE u" e0 = (Ok tt, e1)).
  { unfold e1, e0, db_exec, after_status. cbn [state]. rewrite Hd2.
    reflexivity. }
  destruct (Hstep2 Mini.m2 "DROP TABLE u"%string e1 H2 eq_refl eq_refl Hu
              (mini_scripts_ledger_safe _) Hexec2)
    as [d3 [Hrun3 [_ [_ [Hent3 _]]]]].
  exists d2, d3.
  split; [exact Hrun|].
  split; [unfold recorded; rewrite Hent; reflexivity|].
  split.
  { intros st' d' Hst'. destruct (Hnext st' d' Hst') as [_ Hcv].
    rewrite Hcv. reflexivity. }
  split; [exact Hrun3|].
  unfold recorded. rewrite Hent3, Hent. reflexivity.
Defined.

(** C2 as stated fails in its first case: on a handle that has no ledger
    relation yet, [rollbackMigration] returns [None] but leaves the relation
    created, so the engine state is not the one before the call. *)
Lemma rollbackMigration_creates_ledger :
  fst (rollbackMigration Mini.engine [Mini.m1] Mini.fresh) = Ok None
  /\ ledger (state Mini.fresh) = None
  /\ ledger (state (snd (rollbackMigration Mini.engine [Mini.m1] Mini.fresh)))
     = Some []
  /\ journal (snd (rollbackMigration Mini.engine [Mini.m1] Mini.fresh))
     = [CallExec MIGRATIONS_TABLE_SQL; CallPrepare SELECT_VERSIONS_SQL].
Proof.
  repeat split.
Qed.

(** The same separation of the two calls when it is the insert that fails:
    with two declared migrations of version 1, the second one's up script
    returns and creates [u], and the primary key then rejects its row. *)
Example insert_fails_after_up :
  fst (runMigrations Mini.engine [Mini.m1; Mini.m1_twin] Mini.fresh)
  = Throw (Error ("Failed to apply migration 1 (create u): "
                  ++ "UNIQUE constraint failed: _migrations.version")%string)
  /\ store (state (snd (runMigrations Mini.engine [Mini.m1; Mini.m1_twin]
                          Mini.fresh)))
     = ["t"; "u"]
  /\ recorded (state (snd (runMigrations Mini.engine [Mini.m1; Mini.m1_twin]
                             Mini.fresh)))
     = [(1, "create t")].
Proof.
  repeat split; vm_compute; reflexivity.
Qed.

(* ================================================================== *)
(** * More of the runner *)

Section MoreRuns.

Context {Store : Type} (E : Engine Store).

(** A run either applies the whole pending list and returns it, or applies
    a prefix of it and raises on the next migration. *)
Lemma runMigrations_cases (migrations : list Migration)
  (db : Database Store) :
  (exists d1,
     Applied E (pendingMigrations
                  (spec_status (versions (entries (state db))) migrations))
       (after_status E db) d1
     /\ runMigrations E migrations db
        = (Ok (pendingMigrations
                 (spec_status (versions (entries (state db))) migrations)),
           d1))
  \/ (exists done p rest error d1 d2,
        pendingMigrations
          (spec_status (versions (entries (state db))) migrations)
        = done ++ p :: rest
        /\ Applied E done (after_status E db) d1
        /\ Fails E p error d1 d2
        /\ runMigrations E migrations db
           = (Throw (apply_failed p error), d2)).
Proof.
  unfold runMigrations, bind. rewrite getMigrationStatus_eval.
  destruct (run_pending_cases E
              (pendingMigrations
                 (spec_status (versions (entries (state db))) migrations))
              [] (after_status E db))
    as [[d' [Happ Hrun]]
       |[done [p [rest [error [d1 [d2 [Hms [Happ [Hf Hrun]]]]]]]]]].
  - left. exists d'. split; [exact Happ | exact Hrun].
  - right. exists done, p, rest, error, d1, d2. auto.
Qed.

(** The versions a successful stretch of the loop records are pairwise
    distinct and were not in the ledger before. *)
Lemma Applied_fresh_versions (done : list Migration) (d d' : Database Store) :
  (forall m, In m done -> ledger_safe E (up m)) ->
  ledger (state d) <> None ->
  Applied E done d d' ->
  NoDup (map version done)
  /\ forall m, In m done -> ~ In (version m) (versions (entries (state d))).
Proof.
  intros Hsafe Hpresent H.
  induction H as [d|m ms d d1 d2 d3 Hup Hins _ IH].
  - split; [constructor | intros m []].
  - pose proof (@db_exec_ledger Store E (up m) d d1 (Ok tt)
                  (Hsafe m (or_introl eq_refl)) Hpresent Hup) as Hl1.
    destruct (@db_run_insert_ok Store E m d1 d2 Hins)
      as [_ [Hfresh [Hp2 [Hrec _]]]].
    destruct IH as [Hnd Hnew];
      [intros x Hx; apply Hsafe; right; exact Hx | exact Hp2 |].
    assert (Hv1 : versions (entries (state d1)) = versions (entries (state d))).
    { unfold entries. rewrite Hl1. reflexivity. }
    assert (Hv2 : versions (entries (state d2))
                  = versions (entries (state d)) ++ [version m]).
    { rewrite !versions_recorded, Hrec, map_app, <- !versions_recorded, Hv1.
      reflexivity. }
    split.
    + simpl. constructor; [|exact Hnd].
      intro Hin. apply in_map_iff in Hin. destruct Hin as [x [Hx Hin]].
      apply (Hnew x Hin). rewrite Hv2, Hx. apply in_or_app.
      right; left; reflexivity.
    + intros x [Hx|Hx].
      * subst x. rewrite <- Hv1. exact Hfresh.
      * intro Hin. apply (Hnew x Hx). rewrite Hv2. apply in_or_app.
        left; exact Hin.
Qed.

Lemma versions_after_applied (done : list Migration) (d d' : Database Store) :
  (forall m, In m done -> ledger_safe E (up m)) ->
  ledger (state d) <> None ->
  Applied E done d d' ->
  versions (entries (state d'))
  = versions (entries (state d)) ++ map version done.
Proof.
  intros Hsafe Hpresent H.
  destruct (@Applied_recorded Store E done d d' Hsafe Hpresent H) as [_ Hrec].
  rewrite !versions_recorded, Hrec, map_app, map_map. reflexivity.
Qed.

Lemma after_status_versions (db : Database Store) :
  versions (entries (state (after_status E db)))
  = versions (entries (state db)).
Proof.
  rewrite !versions_recorded, after_status_recorded. reflexivity.
Qed.

Lemma same_key_same_element {A : Type} (key : A -> Z) (l : list A) (x y : A) :
  NoDup (map key l) -> In x l -> In y l -> key x = key y -> x = y.
Proof.
  induction l as [|a l IH]; intros Hnd Hx Hy Hk; [destruct Hx|].
  simpl in Hnd. inversion Hnd as [|k ks Hnotin Hnd']; subst.
  destruct Hx as [Hx|Hx], Hy as [Hy|Hy].
  - congruence.
  - subst a. exfalso. apply Hnotin. rewrite Hk. apply in_map, Hy.
  - subst a. exfalso. apply Hnotin. rewrite <- Hk. apply in_map, Hx.
  - apply IH; assumption.
Qed.

(** X1. The status computation is a read: it leaves the caller's store and
    the ledger rows as they were, and asking again on the handle it left
    gives the same status and changes nothing at all. *)
Theorem getMigrationStatus_read_only (migrations : list Migration)
  (db : Database Store) :
  exists st d0 d1,
    getMigrationStatus E migrations db = (Ok st, d0)
    /\ store (state d0) = store (state db)
    /\ entries (state d0) = entries (state db)
    /\ getMigrationStatus E migrations d0 = (Ok st, d1)
    /\ state d1 = state d0.
Proof.
  exists (spec_status (versions (entries (state db))) migrations),
         (after_status E db), (after_status E (after_status E db)).
  split; [apply getMigrationStatus_eval|].
  split; [apply create_ledger_store|].
  assert (He : entries (state (after_status E db)) = entries (state db)).
  { unfold after_status, entries at 1. cbn [state].
    rewrite create_ledger_entries. reflexivity. }
  split; [exact He|]. split.
  - rewrite getMigrationStatus_eval, He. reflexivity.
  - unfold after_status at 1. cbn [state].
    apply create_ledger_present, after_status_present.
Qed.

(** X2. When [runMigrations] returns, the list it returns is the pending
    list of the status it started from (not every migration ever applied);
    each of its migrations had its up script and then its ledger insert
    return, in that order and with nothing else sent to the engine; and, the
    up scripts leaving the ledger relation alone, the ledger has gained one
    row per returned migration, in the same order. *)
Theorem runMigrations_returns_pending (migrations applied : list Migration)
  (st : MigrationStatus) (db d0 d1 : Database Store) :
  getMigrationStatus E migrations db = (Ok st, d0) ->
  runMigrations E migrations db = (Ok applied, d1) ->
  applied = pendingMigrations st
  /\ Applied E applied d0 d1
  /\ journal d1 = journal d0 ++ flat_map calls_of applied
  /\ ((forall m, In m migrations -> ledger_safe E (up m)) ->
      recorded (state d1) = recorded (state db) ++ map record_of applied).
Proof.
  intros Hstatus Hrun.
  rewrite getMigrationStatus_eval in Hstatus. inversion Hstatus; subst st d0.
  destruct (runMigrations_cases migrations db)
    as [[d' [Happ Hok]]
       |[done [p [rest [error [da [db' [_ [_ [_ Hthrow]]]]]]]]]];
    [|rewrite Hthrow in Hrun; discriminate].
  rewrite Hok in Hrun. inversion Hrun; subst applied d'.
  split; [reflexivity|]. split; [exact Happ|].
  split; [eapply Applied_journal; exact Happ|].
  intros Hsafe.
  assert (Hpend : forall m, In m (pendingMigrations
                    (spec_status (versions (entries (state db))) migrations))
                  -> ledger_safe E (up m)).
  { intros m Hm. apply Hsafe. apply pending_In in Hm. tauto. }
  destruct (@Applied_recorded Store E _ _ _ Hpend
              (after_status_present E db) Happ) as [_ Hrec].
  rewrite Hrec, after_status_recorded. reflexivity.
Qed.

(** X3. After a run that returned (up scripts leaving the ledger relation
    alone), the next status has nothing pending, every declared version is
    applied and at most [currentVersion]; and when the ledger held only
    declared versions and the list is not empty, [currentVersion] is a
    declared version, hence the largest one. *)
Theorem runMigrations_then_status (migrations applied : list Migration)
  (db d1 : Database Store) :
  (forall m, In m migrations -> ledger_safe E (up m)) ->
  runMigrations E migrations db = (Ok applied, d1) ->
  exists st' d',
    getMigrationStatus E migrations d1 = (Ok st', d')
    /\ pendingMigrations st' = []
    /\ (forall m, In m migrations ->
                  In (version m) (appliedMigrations st')
                  /\ version m <= currentVersion st')
    /\ ((forall v, In v (versions (entries (state db))) ->
                   In v (map version migrations)) ->
        migrations <> [] ->
        In (currentVersion st') (map version migrations)).
Proof.
  intros Hsafe Hrun.
  destruct (runMigrations_returned migrations db Hsafe Hrun)
    as [Hpresent Hall].
  rewrite getMigrationStatus_eval. eexists. eexists.
  split; [reflexivity|].
  set (vs := versions (entries (state d1))).
  assert (Hsorted : StronglySorted Z.lt
                      (Js.sort (fun a b => a - b) (Js.new_Set vs)))
    by apply ascending_set_sorted.
  assert (Hne : forall m, In m migrations ->
                  Js.sort (fun a b => a - b) (Js.new_Set vs) <> []).
  { intros m Hm Hnil.
    assert (Hin : In (version m) (Js.sort (fun a b => a - b) (Js.new_Set vs)))
      by (apply ascending_set_In, Hall, Hm).
    rewrite Hnil in Hin. exact Hin. }
  split.
  { unfold spec_status. cbn [pendingMigrations].
    rewrite filter_none; [reflexivity|].
    intros m Hm. apply negb_false_iff, existsb_exists.
    exists (version m). split; [apply Hall, Hm | apply Z.eqb_refl]. }
  split.
  { intros m Hm. cbn [appliedMigrations currentVersion spec_status].
    split; [apply ascending_set_In, Hall, Hm|].
    apply (last_is_max Hsorted (Hne m Hm)), ascending_set_In, Hall, Hm. }
  intros Hdeclared Hnonempty.
  cbn [currentVersion spec_status].
  destruct migrations as [|m0 ms] eqn:HL; [congruence|]. rewrite <- HL in *.
  assert (Hm0 : In m0 migrations) by (rewrite HL; left; reflexivity).
  destruct (last_is_max Hsorted (Hne m0 Hm0)) as [Hin _].
  apply (proj1 (ascending_set_In _ _)) in Hin.
  set (cv := last (Js.sort (fun a b => a - b) (Js.new_Set vs)) 0) in *.
  unfold vs in Hin.
  destruct (runMigrations_cases migrations db)
    as [[d' [Happ Hok]]
       |[done [p [rest [error [da [db' [_ [_ [_ Hthrow]]]]]]]]]];
    [|rewrite Hthrow in Hrun; discriminate].
  rewrite Hok in Hrun. inversion Hrun; subst applied d'.
  assert (Hpend : forall m, In m (pendingMigrations
                    (spec_status (versions (entries (state db))) migrations))
                  -> ledger_safe E (up m)).
  { intros m Hm. apply Hsafe. apply pending_In in Hm. tauto. }
  rewrite (versions_after_applied Hpend (after_status_present E db) Happ),
    after_status_versions in Hin.
  apply in_app_or in Hin. destruct Hin as [Hin|Hin].
  - apply Hdeclared, Hin.
  - apply in_map_iff in Hin. destruct Hin as [m [Hm Hin]].
    apply pending_In in Hin. rewrite <- Hm. apply in_map. tauto.
Qed.

(** X4. When every declared version is already in the ledger, and so for
    the empty list, [runMigrations] returns the empty list: no script and no
    insert reach the engine, store and ledger rows stay as they were. *)
Theorem runMigrations_nothing_pending (migrations : list Migration)
  (db : Database Store) :
  (forall m, In m migrations ->
             In (version m) (versions (entries (state db)))) ->
  exists d0,
    runMigrations E migrations db = (Ok [], d0)
    /\ journal d0 = journal db ++ [CallExec MIGRATIONS_TABLE_SQL;
                                   CallPrepare SELECT_VERSIONS_SQL]
    /\ store (state d0) = store (state db)
    /\ entries (state d0) = entries (state db).
Proof.
  intros Hall. exists (after_status E db). split.
  - unfold runMigrations, bind. rewrite getMigrationStatus_eval.
    unfold spec_status. cbn [pendingMigrations].
    rewrite filter_none; [reflexivity|].
    intros m Hm. apply negb_false_iff, existsb_exists.
    exists (version m). split; [apply Hall, Hm | apply Z.eqb_refl].
  - split; [reflexivity|]. split; [apply create_ledger_store|].
    unfold after_status, entries at 1. cbn [state].
    rewrite create_ledger_entries. reflexivity.
Qed.

(** The ledger versions after a run, whatever its outcome: those before,
    then those of the migrations whose two calls returned. *)
Lemma runMigrations_versions (migrations : list Migration)
  (db : Database Store) :
  (forall m, In m migrations -> ledger_safe E (up m)) ->
  exists done,
    versions (entries (state (snd (runMigrations E migrations db))))
    = versions (entries (state db)) ++ map version done
    /\ NoDup (map version done)
    /\ (forall m, In m done ->
                  ~ In (version m) (versions (entries (state db))))
    /\ (forall applied d1,
          runMigrations E migrations db = (Ok applied, d1) ->
          done = pendingMigrations
                   (spec_status (versions (entries (state db))) migrations)).
Proof.
  intros Hsafe.
  set (st := spec_status (versions (entries (state db))) migrations).
  assert (Hin : forall m, In m (pendingMigrations st) -> In m migrations).
  { intros m Hm. apply pending_In in Hm. tauto. }
  destruct (runMigrations_cases migrations db)
    as [[d1 [Happ Hok]]
       |[done [p [rest [error [d1 [d2 [Hms [Happ [Hf Hthrow]]]]]]]]]];
    fold st in Happ.
  - assert (Hpend : forall m, In m (pendingMigrations st) ->
                              ledger_safe E (up m))
      by (intros m Hm; apply Hsafe, Hin, Hm).
    exists (pendingMigrations st). rewrite Hok. cbn [snd].
    rewrite (versions_after_applied Hpend (after_status_present E db) Happ),
      after_status_versions.
    destruct (Applied_fresh_versions Hpend (after_status_present E db) Happ)
      as [Hnd Hfresh].
    split; [reflexivity|]. split; [exact Hnd|]. split.
    + intros m Hm. rewrite <- after_status_versions. apply Hfresh, Hm.
    + intros applied d' _. reflexivity.
  - fold st in Hms.
    assert (Hin' : forall m, In m (done ++ p :: rest) -> In m migrations)
      by (intros m Hm; rewrite <- Hms in Hm; apply Hin, Hm).
    assert (Hdone : forall m, In m done -> ledger_safe E (up m)).
    { intros m Hm. apply Hsafe, Hin', in_or_app. left; exact Hm. }
    destruct (@Applied_recorded Store E done _ _ Hdone
                (after_status_present E db) Happ) as [Hpresent _].
    exists done. rewrite Hthrow. cbn [snd].
    assert (Hl : ledger (state d2) = ledger (state d1)).
    { exact (@Fails_ledger Store E p error d1 d2
               (Hsafe p (Hin' p (in_elt p done rest))) Hpresent Hf). }
    assert (Hv : versions (entries (state d2)) = versions (entries (state d1))).
    { unfold entries. rewrite Hl. reflexivity. }
    rewrite Hv,
      (versions_after_applied Hdone (after_status_present E db) Happ),
      after_status_versions.
    destruct (Applied_fresh_versions Hdone (after_status_present E db) Happ)
      as [Hnd Hfresh].
    split; [reflexivity|]. split; [exact Hnd|]. split.
    + intros m Hm. rewrite <- after_status_versions. apply Hfresh, Hm.
    + intros applied d' Hok. discriminate Hok.
Qed.

(** X5. [runMigrations] never puts a version into the ledger twice: when
    the ledger's versions are pairwise distinct before the call they are so
    after it, whether the call returns or raises (up scripts leaving the
    ledger relation alone). *)
Theorem runMigrations_versions_distinct (migrations : list Migration)
  (db : Database Store) :
  (forall m, In m migrations -> ledger_safe E (up m)) ->
  NoDup (versions (entries (state db))) ->
  NoDup (versions (entries (state (snd (runMigrations E migrations db))))).
Proof.
  intros Hsafe Hnd.
  destruct (runMigrations_versions migrations db Hsafe)
    as [done [Hv [Hdone [Hfresh _]]]].
  rewrite Hv. apply NoDup_app; [exact Hnd | exact Hdone |].
  intros v Hold Hnew. apply in_map_iff in Hnew.
  destruct Hnew as [m [Hm Hin]]. apply (Hfresh m Hin). rewrite Hm. exact Hold.
Qed.

(** X6. Two different declared migrations that share a version not yet in
    the ledger make [runMigrations] raise: the primary key rejects the
    second row, so the call cannot return (up scripts leaving the ledger
    relation alone). *)
Theorem runMigrations_shared_version_raises (migrations : list Migration)
  (m m' : Migration) (db : Database Store) :
  (forall x, In x migrations -> ledger_safe E (up x)) ->
  In m migrations -> In m' migrations -> m <> m' ->
  version m = version m' ->
  ~ In (version m) (versions (entries (state db))) ->
  exists error d, runMigrations E migrations db = (Throw error, d).
Proof.
  intros Hsafe Hm Hm' Hneq Hv Hfresh.
  destruct (runMigrations E migrations db) as [[applied|error] d] eqn:Hrun;
    [|exists error, d; reflexivity].
  exfalso.
  destruct (runMigrations_versions migrations db Hsafe)
    as [done [_ [Hnd [_ Hdone]]]].
  specialize (Hdone applied d Hrun). subst done.
  apply Hneq. apply (same_key_same_element version _ m m' Hnd).
  - apply pending_In. split; assumption.
  - apply pending_In. split; [exact Hm' | rewrite <- Hv; exact Hfresh].
  - exact Hv.
Qed.

End MoreRuns.

Section PermutedRuns.

Context {Store : Type} (E : Engine Store).

(** C6, as the code has it.  For a declared list whose versions are
    pairwise distinct and any permutation of it, from the same handle: the
    two status computations give the same pending list, strictly ascending
    by version; both runs send to the engine, after the status calls, the up
    script and then the ledger insert of the pending migrations one after
    the other in that ascending order, either all of them, returning them,
    or up to the first call that raises; and the two runs have the same
    outcome and leave the same handle, that is the same ledger, the same
    store and the same journal of calls. *)
Theorem runMigrations_permutation (migrations migrations' : list Migration)
  (db : Database Store) :
  Permutation migrations migrations' ->
  NoDup (map version migrations) ->
  runMigrations E migrations db = runMigrations E migrations' db
  /\ exists st st' d0 done rest d1,
       getMigrationStatus E migrations db = (Ok st, d0)
       /\ getMigrationStatus E migrations' db = (Ok st', d0)
       /\ pendingMigrations st = pendingMigrations st'
       /\ StronglySorted (key_lt version) (pendingMigrations st)
       /\ pendingMigrations st = done ++ rest
       /\ Applied E done d0 d1
       /\ journal d1 = journal d0 ++ flat_map calls_of done
       /\ ((rest = []
            /\ runMigrations E migrations' db = (Ok done, d1))
           \/ exists pk rest' error d2,
                rest = pk :: rest'
                /\ Fails E pk error d1 d2
                /\ (journal d2 = journal d1 ++ [CallExec (up pk)]
                    \/ journal d2 = journal d1 ++ calls_of pk)
                /\ runMigrations E migrations' db
                   = (Throw (apply_failed pk error), d2)).
Proof.
  intros Hperm Hnd.
  destruct (pending_permutation (versions (entries (state db))) Hperm Hnd)
    as [Heq Hsorted].
  assert (Hsame : runMigrations E migrations db
                  = runMigrations E migrations' db).
  { unfold runMigrations, bind. rewrite !getMigrationStatus_eval, Heq.
    reflexivity. }
  split; [exact Hsame|].
  rewrite !getMigrationStatus_eval, <- Hsame.
  destruct (runMigrations_cases E migrations db)
    as [[d1 [Happ Hok]]
       |[done [p [rest [error [d1 [d2 [Hms [Happ [Hf Hthrow]]]]]]]]]].
  - eexists. eexists. eexists.
    exists (pendingMigrations
              (spec_status (versions (entries (state db))) migrations)),
           [], d1.
    split; [reflexivity|]. split; [reflexivity|].
    split; [exact Heq|]. split; [exact Hsorted|].
    split; [rewrite app_nil_r; reflexivity|].
    split; [exact Happ|].
    split; [eapply Applied_journal; exact Happ|].
    left. split; [reflexivity | exact Hok].
  - eexists. eexists. eexists. exists done, (p :: rest), d1.
    split; [reflexivity|]. split; [reflexivity|].
    split; [exact Heq|]. split; [exact Hsorted|].
    split; [exact Hms|].
    split; [exact Happ|].
    split; [eapply Applied_journal; exact Happ|].
    right. exists p, rest, error, d2.
    split; [reflexivity|]. split; [exact Hf|].
    split; [eapply Fails_journal; exact Hf | exact Hthrow].
Qed.

End PermutedRuns.

(* ------------------------------------------------------------------ *)
(** ** More of rollback *)

Section MoreRollback.

Context {Store : Type} (E : Engine Store).

(** X7. When the down script of the current version's migration raises,
    [rollbackMigration] raises "Failed to rollback migration <version>:
    <cause>"; the delete is never sent, and, the script leaving the ledger
    relation alone, the ledger still holds every row it had, the one of
    the current version included. *)
Theorem rollbackMigration_down_fails (migrations : list Migration)
  (st : MigrationStatus) (m : Migration) (sql : string) (error : Exn)
  (db d0 d1 : Database Store) :
  getMigrationStatus E migrations db = (Ok st, d0) ->
  currentVersion st <> 0 ->
  find (fun m => version m =? currentVersion st) migrations = Some m ->
  down m = Some sql -> sql <> ""%string ->
  db_exec E sql d0 = (Throw error, d1) ->
  rollbackMigration E migrations db
  = (Throw (Error ("Failed to rollback migration " ++ show (version m) ++ ": "
                   ++ cause_text error)%string), d1)
  /\ journal d1 = journal d0 ++ [CallExec sql]
  /\ (ledger_safe E sql -> entries (state d1) = entries (state db)).
Proof.
  intros Hstatus Hcv Hfind Hdown Hsql Hexec.
  rewrite getMigrationStatus_eval in Hstatus. inversion Hstatus; subst st d0.
  split.
  - rewrite rollbackMigration_eval. cbv zeta.
    apply Z.eqb_neq in Hcv. rewrite Hcv, Hfind.
    unfold no_down. rewrite Hdown.
    apply String.eqb_neq in Hsql. rewrite Hsql, Hexec. reflexivity.
  - split; [exact (@db_exec_journal Store E sql _ _ _ Hexec)|].
    intros Hsafe.
    pose proof (@db_exec_ledger Store E sql _ _ _ Hsafe
                  (after_status_present E db) Hexec) as Hl.
    unfold entries at 1. rewrite Hl.
    unfold after_status. cbn [state]. rewrite create_ledger_entries.
    reflexivity.
Qed.

(** X8. After a rollback that returned [m] (its down script leaving the
    ledger relation alone), the next status lists [m] as pending again, and
    whatever was pending before still is: a following [runMigrations] will
    take [m] up again. *)
Theorem rollbackMigration_then_pending (migrations : list Migration)
  (st : MigrationStatus) (m : Migration) (sql : string)
  (db d0 d1 : Database Store) :
  getMigrationStatus E migrations db = (Ok st, d0) ->
  currentVersion st <> 0 ->
  find (fun m => version m =? currentVersion st) migrations = Some m ->
  down m = Some sql -> sql <> ""%string ->
  ledger_safe E sql ->
  db_exec E sql d0 = (Ok tt, d1) ->
  exists d2 st' d',
    rollbackMigration E migrations db = (Ok (Some m), d2)
    /\ getMigrationStatus E migrations d2 = (Ok st', d')
    /\ In m (pendingMigrations st')
    /\ forall x, In x (pendingMigrations st) -> In x (pendingMigrations st').
Proof.
  intros Hstatus Hcv Hfind Hdown Hsql Hsafe Hexec.
  rewrite getMigrationStatus_eval in Hstatus. inversion Hstatus; subst st d0.
  set (st := spec_status (versions (entries (state db))) migrations) in *.
  assert (Hp0 : ledger (state (after_status E db)) <> None)
    by apply after_status_present.
  pose proof (@db_exec_ledger Store E sql _ _ _ Hsafe Hp0 Hexec) as Hl1.
  assert (Hp1 : ledger (state d1) <> None) by (rewrite Hl1; exact Hp0).
  destruct (db_run E DELETE_LEDGER_SQL [SNum (version m)] d1)
    as [r d2] eqn:Hdel.
  destruct (@db_run_delete Store E _ _ _ _ Hp1 Hdel) as [Hr [Hent _]].
  subst r.
  assert (He1 : entries (state d1) = entries (state db)).
  { unfold entries at 1. rewrite Hl1. unfold after_status. cbn [state].
    rewrite create_ledger_entries. reflexivity. }
  assert (Hkept : forall v, In v (versions (entries (state d2))) ->
                    In v (versions (entries (state db))) /\ v <> version m).
  { intros v Hv. unfold versions in Hv. apply in_map_iff in Hv.
    destruct Hv as [e [He Hin]]. rewrite Hent, He1 in Hin.
    apply filter_In in Hin. destruct Hin as [Hin Hk].
    apply negb_true_iff, Z.eqb_neq in Hk. subst v.
    split; [apply in_map, Hin | exact Hk]. }
  exists d2. eexists. eexists.
  split.
  { rewrite rollbackMigration_eval. cbv zeta. fold st.
    apply Z.eqb_neq in Hcv. rewrite Hcv, Hfind.
    unfold no_down. rewrite Hdown.
    apply String.eqb_neq in Hsql. rewrite Hsql, Hexec, Hdel. reflexivity. }
  split; [apply getMigrationStatus_eval|].
  split.
  - apply pending_In. split; [apply find_some in Hfind; tauto|].
    intro Hin. apply Hkept in Hin. tauto.
  - intros x Hx. apply pending_In in Hx. apply pending_In.
    split; [tauto|]. intro Hin. apply Hkept in Hin. tauto.
Qed.

End MoreRollback.

(* ------------------------------------------------------------------ *)
(** ** More of the query helpers *)

Section MoreQuery.

Context {Store : Type} (E : Engine Store).

(** X9. [lastInsertRowId]: an error of the engine's [prepare] comes back
    unchanged; with the statement prepared and its one column named [id],
    the answer is 0 when the statement yields no row or a null, and the
    value of the first row otherwise. *)
Theorem lastInsertRowId_default (db : Database Store) :
  (forall error,
     engine_prepare E LAST_INSERT_ROWID_SQL (state db) = Throw error ->
     fst (lastInsertRowId E db) = Throw error)
  /\ (forall stmt,
        engine_prepare E LAST_INSERT_ROWID_SQL (state db) = Ok stmt ->
        columnNames stmt = ["id"] ->
        (bindRows stmt [] = Ok [] ->
         fst (lastInsertRowId E db) = Ok (SNum 0))
        /\ (forall rest,
              bindRows stmt [] = Ok ([SNull] :: rest) ->
              fst (lastInsertRowId E db) = Ok (SNum 0))
        /\ (forall n rest,
              bindRows stmt [] = Ok ([SNum n] :: rest) ->
              fst (lastInsertRowId E db) = Ok (SNum n))).
Proof.
  split.
  - intros error Hprep. unfold lastInsertRowId, query, bind, db_prepare.
    rewrite Hprep. reflexivity.
  - intros stmt Hprep Hcols.
    assert (Hrun : forall cursor, bindRows stmt [] = Ok cursor ->
              exists cols,
                query E LAST_INSERT_ROWID_SQL [] db
                = (Ok {| columns := cols;
                         rows := map (getAsObject stmt) cursor |},
                   record_call (CallPrepare LAST_INSERT_ROWID_SQL)
                     (state db) db)).
    { intros cursor Hbind. unfold query, bind, db_prepare.
      rewrite Hprep, Hbind.
      pose proof (step_loop_rows stmt cursor [] []) as Hrows.
      destruct (step_loop stmt cursor [] []) as [cols rws].
      simpl in Hrows. subst rws. exists cols. reflexivity. }
    split; [|split].
    + intros Hbind. destruct (Hrun _ Hbind) as [cols Hq].
      unfold lastInsertRowId, bind. rewrite Hq. reflexivity.
    + intros rest Hbind. destruct (Hrun _ Hbind) as [cols Hq].
      unfold lastInsertRowId, bind. rewrite Hq. cbn [rows map].
      unfold getAsObject. rewrite Hcols. reflexivity.
    + intros n rest Hbind. destruct (Hrun _ Hbind) as [cols Hq].
      unfold lastInsertRowId, bind. rewrite Hq. cbn [rows map].
      unfold getAsObject. rewrite Hcols. reflexivity.
Qed.

End MoreQuery.

(* ------------------------------------------------------------------ *)
(** ** More of the connection layer *)

Section MoreScoped.

Context {Store : Type} (E : Engine Store) (dirname : string -> string).

Lemma loadDatabase_faults (path : string) (w w1 : World Store)
  (r : Result (Database Store)) :
  loadDatabase E path w = (r, w1) -> faults w1 = faults w.
Proof.
  unfold loadDatabase. destruct (path =? ":memory:")%string.
  - intros H. inversion H; subst. reflexivity.
  - unfold try_catch, bind, readFile.
    destruct (faults w (EvReadFile path)) as [error|].
    + destruct (is_enoent error); intros H; inversion H; subst; reflexivity.
    + destruct (files w path); intros H; inversion H; subst; reflexivity.
Qed.

Lemma loadDatabase_torn (path : string) (w w1 : World Store)
  (r : Result (Database Store)) :
  loadDatabase E path w = (r, w1) -> torn w1 = torn w.
Proof.
  unfold loadDatabase. destruct (path =? ":memory:")%string.
  - intros H. inversion H; subst. reflexivity.
  - unfold try_catch, bind, readFile.
    destruct (faults w (EvReadFile path)) as [error|].
    + destruct (is_enoent error); intros H; inversion H; subst; reflexivity.
    + destruct (files w path); intros H; inversion H; subst; reflexivity.
Qed.

(** X10. [loadDatabase]: the in-memory path gives an empty database
    without touching the file system; a path with a file gives a connection
    opened on that file's image; a path without a file, or a read failing with code ENOENT, gives
    an empty database and no error; a read failing in any other way raises
    that same error. *)
Theorem loadDatabase_cases (path : string) (w : World Store) :
  (path = ":memory:"%string ->
   loadDatabase E path w = (Ok (new_Database (blank E)), w))
  /\ (path <> ":memory:"%string ->
      (forall image,
         faults w (EvReadFile path) = None -> files w path = Some image ->
         loadDatabase E path w
         = (Ok (new_Database (reopened E image)), log (EvReadFile path) w))
      /\ (faults w (EvReadFile path) = None -> files w path = None ->
          loadDatabase E path w
          = (Ok (new_Database (blank E)), log (EvReadFile path) w))
      /\ (forall message,
            faults w (EvReadFile path)
            = Some (ErrnoException "ENOENT" message) ->
            loadDatabase E path w
            = (Ok (new_Database (blank E)), log (EvReadFile path) w))
      /\ (forall error,
            faults w (EvReadFile path) = Some error ->
            is_enoent error = false ->
            loadDatabase E path w = (Throw error, log (EvReadFile path) w))).
Proof.
  split.
  - intros ->. reflexivity.
  - intros Hpath. apply String.eqb_neq in Hpath.
    unfold loadDatabase, try_catch, bind, readFile. rewrite Hpath.
    split; [|split; [|split]].
    + intros image Hfault Hfile. rewrite Hfault, Hfile. reflexivity.
    + intros Hfault Hfile. rewrite Hfault, Hfile. reflexivity.
    + intros message Hfault. rewrite Hfault. reflexivity.
    + intros error Hfault Hcode. rewrite Hfault, Hcode. reflexivity.
Qed.

(** X11. On the in-memory path [withConnection] hands the callback an empty
    database, settles as the callback did, closes the handle without
    exporting it, and never touches the file system: the files are those
    before, and the log gains at most the entry into [saveDatabase]. *)
Theorem withConnection_memory {T : Type} (config : ConnectionConfig)
  (fn : ConnectionCallback (Store := Store) T) (w : World Store) :
  dbPath config = ":memory:"%string ->
  exists w',
    withConnection E dirname config fn w
    = (fst (fn (new_Database (blank E))),
       Some (db_close (snd (fn (new_Database (blank E))))), w')
    /\ files w' = files w
    /\ (forall ev, In ev (events w') ->
                   In ev (events w) \/ ev = EvSaveDatabase ":memory:").
Proof.
  intros Hpath. unfold withConnection. rewrite Hpath. cbn [loadDatabase].
  unfold loadDatabase. cbn. unfold ret.
  unfold try_finally, bind, on_handle. cbn [fst snd].
  destruct (fn (new_Database (blank E))) as [[result|error] db1].
  - unfold saveDatabase. cbn. unfold ret. cbn.
    eexists. split; [reflexivity|]. split; [reflexivity|].
    cbn [events log]. intros ev Hin. apply in_app_or in Hin.
    destruct Hin as [Hin|[Hin|[]]]; [left; exact Hin | right; auto].
  - exists w. split; [reflexivity|]. split; [reflexivity|].
    intros ev Hin. left; exact Hin.
Qed.

(** X12. On a file path, when the callback returns and neither the
    directory creation nor the write fails, [withConnection] resolves to the
    callback's result; the file at the path holds the image of the engine
    state the callback left (what a connection reopened on it sees), every
    other file is as before; the handle was exported and then closed; and
    the log gained, in order, the entry into [saveDatabase], the [mkdir] of
    the path's directory and the write. *)
Theorem withConnection_persists {T : Type} (config : ConnectionConfig)
  (fn : ConnectionCallback (Store := Store) T) (w w1 : World Store)
  (db db1 : Database Store) (result : T) :
  dbPath config <> ":memory:"%string ->
  loadDatabase E (dbPath config) w = (Ok db, w1) ->
  fn db = (Ok result, db1) ->
  faults w (EvMkdir (dirname (dbPath config))) = None ->
  faults w (EvWriteFile (dbPath config)) = None ->
  exists w2,
    withConnection E dirname config fn w
    = (Ok result,
       Some {| state := reopened E (state db1);
               journal := journal db1 ++ [CallExport; CallClose] |},
       w2)
    /\ files w2 (dbPath config) = Some (reopened E (state db1))
    /\ (forall p, p <> dbPath config -> files w2 p = files w p)
    /\ events w2
       = events w1 ++ [EvSaveDatabase (dbPath config);
                       EvMkdir (dirname (dbPath config));
                       EvWriteFile (dbPath config)].
Proof.
  intros Hpath Hload Hfn Hmk Hwr.
  pose proof (loadDatabase_faults _ _ Hload) as Hfaults.
  destruct (loadDatabase_world E _ _ Hload) as [Hfiles _].
  rewrite <- Hfaults in Hmk, Hwr.
  apply String.eqb_neq in Hpath.
  unfold withConnection. rewrite Hload.
  unfold try_finally, bind, on_handle. cbn [fst snd]. rewrite Hfn.
  unfold saveDatabase, in_world, bind, mkdir, writeFile, db_export, ret.
  cbn [fst snd log faults files events]. rewrite Hpath, Hmk.
  cbn [fst snd log faults files events]. rewrite Hwr.
  unfold db_close. cbn [fst snd log faults files events state journal].
  rewrite <- !app_assoc. cbn [app].
  eexists. split; [reflexivity|].
  cbn [files events]. split.
  { rewrite String.eqb_refl. reflexivity. }
  split; [|reflexivity].
  intros p Hp. apply String.eqb_neq in Hp. rewrite Hp, Hfiles.
  reflexivity.
Qed.

(** X13. On a file path, when the callback returns but persisting fails,
    [withConnection] rejects with the file-system error and the handle,
    already exported, is closed all the same.  If it is the directory
    creation that fails, no write is attempted and no file changes.  If it
    is the write that fails, every file other than the one at the database
    path is as before; what the database path then holds is whatever the
    failed write left. *)
Theorem withConnection_save_fails {T : Type} (config : ConnectionConfig)
  (fn : ConnectionCallback (Store := Store) T) (w w1 : World Store)
  (db db1 : Database Store) (result : T) :
  dbPath config <> ":memory:"%string ->
  loadDatabase E (dbPath config) w = (Ok db, w1) ->
  fn db = (Ok result, db1) ->
  (forall error,
     faults w (EvMkdir (dirname (dbPath config))) = Some error ->
     exists w2,
       withConnection E dirname config fn w
       = (Throw error,
          Some {| state := reopened E (state db1);
                  journal := journal db1 ++ [CallExport; CallClose] |},
          w2)
       /\ files w2 = files w
       /\ events w2
          = events w1 ++ [EvSaveDatabase (dbPath config);
                          EvMkdir (dirname (dbPath config))])
  /\ (forall error,
        faults w (EvMkdir (dirname (dbPath config))) = None ->
        faults w (EvWriteFile (dbPath config)) = Some error ->
        exists w2,
          withConnection E dirname config fn w
          = (Throw error,
             Some {| state := reopened E (state db1);
                     journal := journal db1 ++ [CallExport; CallClose] |},
             w2)
          /\ (forall p, p <> dbPath config -> files w2 p = files w p)
          /\ files w2 (dbPath config) = torn w (dbPath config)
          /\ events w2
             = events w1 ++ [EvSaveDatabase (dbPath config);
                             EvMkdir (dirname (dbPath config));
                             EvWriteFile (dbPath config)]).
Proof.
  intros Hpath Hload Hfn.
  pose proof (loadDatabase_faults _ _ Hload) as Hfaults.
  pose proof (loadDatabase_torn _ _ Hload) as Htorn.
  destruct (loadDatabase_world E _ _ Hload) as [Hfiles _].
  apply String.eqb_neq in Hpath.
  split.
  - intros error Hmk. rewrite <- Hfaults in Hmk.
    unfold withConnection. rewrite Hload.
    unfold try_finally, bind, on_handle. cbn [fst snd]. rewrite Hfn.
    unfold saveDatabase, in_world, bind, mkdir, db_export, ret.
    cbn [fst snd log faults files events torn]. rewrite Hpath, Hmk.
    unfold db_close.
    cbn [fst snd log faults files events torn state journal].
    rewrite <- !app_assoc. cbn [app].
    eexists. split; [reflexivity|].
    cbn [files events log]. split; [exact Hfiles|].
    rewrite <- app_assoc. reflexivity.
  - intros error Hmk Hwr. rewrite <- Hfaults in Hmk, Hwr.
    unfold withConnection. rewrite Hload.
    unfold try_finally, bind, on_handle. cbn [fst snd]. rewrite Hfn.
    unfold saveDatabase, in_world, bind, mkdir, writeFile, db_export, ret.
    cbn [fst snd log faults files events torn]. rewrite Hpath, Hmk.
    cbn [fst snd log faults files events torn]. rewrite Hwr.
    unfold db_close.
    cbn [fst snd log faults files events torn state journal].
    rewrite <- !app_assoc. cbn [app].
    eexists. split; [reflexivity|].
    cbn [files events]. split; [|split].
    + intros p Hp. apply String.eqb_neq in Hp. rewrite Hp, Hfiles.
      reflexivity.
    + rewrite String.eqb_refl, Htorn. reflexivity.
    + reflexivity.
Qed.

(** X14. When reading the database file fails with an error other than
    ENOENT, [withConnection] rejects with that error whatever the callback
    is: the callback is not run, there is no handle to close, and the only
    trace is the read. *)
Theorem withConnection_read_error {T : Type} (config : ConnectionConfig)
  (fn : ConnectionCallback (Store := Store) T) (w : World Store)
  (error : Exn) :
  dbPath config <> ":memory:"%string ->
  faults w (EvReadFile (dbPath config)) = Some error ->
  is_enoent error = false ->
  withConnection E dirname config fn w
  = (Throw error, None, log (EvReadFile (dbPath config)) w).
Proof.
  intros Hpath Hfault Hcode. apply String.eqb_neq in Hpath.
  unfold withConnection, loadDatabase, try_catch, bind, readFile.
  rewrite Hpath, Hfault, Hcode. reflexivity.
Qed.

(** X16. The scoped mode is the manual mode run the documented way:
    [withConnection] gives, outcome, handle and world alike, what one gets
    from [createConnection] by running the callback, calling [save] when it
    returned, and closing the handle in every case. *)
Theorem withConnection_manual {T : Type} (config : ConnectionConfig)
  (fn : ConnectionCallback (Store := Store) T) (w : World Store) :
  withConnection E dirname config fn w = manual_scope E dirname config fn w.
Proof.
  unfold withConnection, manual_scope, createConnection, bind, ret.
  destruct (loadDatabase E (dbPath config) w) as [[db|error] w1];
    [|reflexivity].
  unfold try_finally, bind, on_handle. cbn [fst snd].
  destruct (fn db) as [[result|error] db1]; [|reflexivity].
  destruct (saveDatabase E dirname (dbPath config) (db1, w1))
    as [[[]|error] [db2 w2]]; reflexivity.
Qed.

End MoreScoped.

(* ------------------------------------------------------------------ *)
(** ** More concrete runs on the miniature engine *)

(** X2 at the three migrations declared out of order. *)
Lemma runMigrations_returns_pending_witness :
  fst (runMigrations Mini.engine [Mini.m3; Mini.m1; Mini.m2] Mini.fresh)
  = Ok [Mini.m1; Mini.m2; Mini.m3]
  /\ recorded (state (snd (runMigrations Mini.engine
                             [Mini.m3; Mini.m1; Mini.m2] Mini.fresh)))
     = [(1, "create t"); (2, "create u"); (3, "create w")].
Proof.
  destruct (@runMigrations_returns_pending _ Mini.engine
              [Mini.m3; Mini.m1; Mini.m2] [Mini.m1; Mini.m2; Mini.m3]
              (spec_status [] [Mini.m3; Mini.m1; Mini.m2]) Mini.fresh
              (after_status Mini.engine Mini.fresh)
              (snd (runMigrations Mini.engine [Mini.m3; Mini.m1; Mini.m2]
                      Mini.fresh))
              eq_refl eq_refl) as [_ [_ [_ Hrec]]].
  split; [reflexivity|].
  exact (Hrec (fun m _ => mini_scripts_ledger_safe (up m))).
Defined.

(** X3 at the three migrations: nothing is pending afterwards and the
    current version is a declared one. *)
Lemma runMigrations_then_status_witness :
  exists st' d',
    getMigrationStatus Mini.engine [Mini.m1; Mini.m2; Mini.m3] Mini.migrated
    = (Ok st', d')
    /\ pendingMigrations st' = []
    /\ In (currentVersion st') [1; 2; 3].
Proof.
  destruct (@runMigrations_then_status _ Mini.engine
              [Mini.m1; Mini.m2; Mini.m3] [Mini.m1; Mini.m2; Mini.m3]
              Mini.fresh Mini.migrated
              (fun m _ => mini_scripts_ledger_safe (up m)) eq_refl)
    as [st' [d' [Hst [Hpending [_ Hcv]]]]].
  exists st', d'. split; [exact Hst|]. split; [exact Hpending|].
  apply Hcv; [intros v [] | discriminate].
Defined.

(** X4 at the three migrations on the handle that already has them. *)
Lemma runMigrations_nothing_pending_witness :
  exists d0,
    runMigrations Mini.engine [Mini.m1; Mini.m2; Mini.m3] Mini.migrated
    = (Ok [], d0)
    /\ store (state d0) = ["t"; "u"; "w"].
Proof.
  destruct (@runMigrations_nothing_pending _ Mini.engine
              [Mini.m1; Mini.m2; Mini.m3] Mini.migrated) as [d0 [Hrun [_ [Hs _]]]].
  { intros m [<-|[<-|[<-|[]]]]; vm_compute; auto. }
  exists d0. split; [exact Hrun|]. rewrite Hs. reflexivity.
Defined.

(** X5 at two migrations declared with version 1. *)
Lemma runMigrations_versions_distinct_witness :
  NoDup (versions (entries (state (snd (runMigrations Mini.engine
                                          [Mini.m1; Mini.m1_twin]
                                          Mini.fresh))))).
Proof.
  apply (@runMigrations_versions_distinct _ Mini.engine
           [Mini.m1; Mini.m1_twin] Mini.fresh
           (fun m _ => mini_scripts_ledger_safe (up m))).
  exact (NoDup_nil Z).
Defined.

(** X6 at two migrations declared with version 1. *)
Lemma runMigrations_shared_version_raises_witness :
  exists error d,
    runMigrations Mini.engine [Mini.m1; Mini.m1_twin] Mini.fresh
    = (Throw error, d).
Proof.
  apply (@runMigrations_shared_version_raises _ Mini.engine
           [Mini.m1; Mini.m1_twin] Mini.m1 Mini.m1_twin Mini.fresh
           (fun m _ => mini_scripts_ledger_safe (up m))).
  - left; reflexivity.
  - right; left; reflexivity.
  - discriminate.
  - reflexivity.
  - intros [].
Defined.

(** X7 at [m5], whose down script drops a table that does not exist. *)
Lemma rollbackMigration_down_fails_witness :
  fst (rollbackMigration Mini.engine [Fixtures.m5] Fixtures.migrated5)
  = Throw (Error "Failed to rollback migration 5: no such table: missing")
  /\ recorded (state (snd (rollbackMigration Mini.engine [Fixtures.m5]
                             Fixtures.migrated5)))
     = [(5, "create y")].
Proof.
  assert (H5 : 5 <> 0) by discriminate.
  assert (Hsql : "DROP TABLE missing"%string <> ""%string) by discriminate.
  destruct (@rollbackMigration_down_fails _ Mini.engine [Fixtures.m5]
              (spec_status [5] [Fixtures.m5]) Fixtures.m5
              "DROP TABLE missing" (Error "no such table: missing")
              Fixtures.migrated5
              (after_status Mini.engine Fixtures.migrated5)
              (snd (db_exec Mini.engine "DROP TABLE missing"
                      (after_status Mini.engine Fixtures.migrated5)))
              eq_refl H5 eq_refl eq_refl Hsql eq_refl)
    as [Hrun [_ Hkept]].
  rewrite Hrun. split; [reflexivity|].
  cbn [snd]. unfold recorded. rewrite (Hkept (mini_scripts_ledger_safe _)).
  reflexivity.
Defined.

(** X8 at the ledger holding versions 1, 2 and 3. *)
Lemma rollbackMigration_then_pending_witness :
  exists d2 st' d',
    rollbackMigration Mini.engine [Mini.m1; Mini.m2; Mini.m3] Mini.migrated
    = (Ok (Some Mini.m3), d2)
    /\ getMigrationStatus Mini.engine [Mini.m1; Mini.m2; Mini.m3] d2
       = (Ok st', d')
    /\ In Mini.m3 (pendingMigrations st').
Proof.
  assert (H3 : 3 <> 0) by discriminate.
  assert (Hsql : "DROP TABLE w"%string <> ""%string) by discriminate.
  destruct (@rollbackMigration_then_pending _ Mini.engine
              [Mini.m1; Mini.m2; Mini.m3]
              (spec_status [1; 2; 3] [Mini.m1; Mini.m2; Mini.m3])
              Mini.m3 "DROP TABLE w" Mini.migrated
              (after_status Mini.engine Mini.migrated)
              (snd (db_exec Mini.engine "DROP TABLE w"
                      (after_status Mini.engine Mini.migrated)))
              eq_refl H3 eq_refl eq_refl Hsql
              (mini_scripts_ledger_safe _) eq_refl)
    as [d2 [st' [d' [Hrun [Hst [Hin _]]]]]].
  exists d2, st', d'. auto.
Defined.

(** X11 at a callback that applies a migration in memory. *)
Lemma withConnection_memory_witness :
  exists db1 w',
    withConnection Mini.engine (fun p => p) {| dbPath := ":memory:" |}
      Fixtures.migrate_m1 Mini.empty_world
    = (Ok [Mini.m1], Some db1, w')
    /\ files w' = files Mini.empty_world.
Proof.
  destruct (@withConnection_memory _ Mini.engine (fun p => p) _
              {| dbPath := ":memory:" |} Fixtures.migrate_m1
              Mini.empty_world eq_refl) as [w' [Hrun [Hfiles _]]].
  eexists. exists w'. split; [exact Hrun | exact Hfiles].
Defined.

(** X12 at a callback that applies a migration, on a path with no file. *)
Lemma withConnection_persists_witness :
  exists db1 w2,
    withConnection Mini.engine (fun _ => "data"%string)
      {| dbPath := "data/app.db" |} Fixtures.migrate_m1 Mini.empty_world
    = (Ok [Mini.m1], Some db1, w2)
    /\ option_map (@store _) (files w2 "data/app.db") = Some ["t"]
    /\ events w2 = [EvReadFile "data/app.db"; EvSaveDatabase "data/app.db";
                    EvMkdir "data"; EvWriteFile "data/app.db"].
Proof.
  assert (Hpath : "data/app.db"%string <> ":memory:"%string) by discriminate.
  destruct (@withConnection_persists _ Mini.engine (fun _ => "data"%string) _
              {| dbPath := "data/app.db" |} Fixtures.migrate_m1
              Mini.empty_world
              (log (EvReadFile "data/app.db") Mini.empty_world)
              (new_Database (blank Mini.engine))
              (snd (Fixtures.migrate_m1 (new_Database (blank Mini.engine))))
              [Mini.m1] Hpath eq_refl eq_refl eq_refl eq_refl)
    as [w2 [Hrun [Hfile [_ Hevents]]]].
  eexists. exists w2. split; [exact Hrun|]. split.
  - cbn [dbPath] in Hfile. rewrite Hfile. reflexivity.
  - exact Hevents.
Defined.

(** X13 at a world whose directory cannot be created, and at one in which
    the write fails. *)
Lemma withConnection_save_fails_witness :
  (exists db1 w2,
     withConnection Mini.engine (fun _ => "data"%string)
       {| dbPath := "data/app.db" |} Fixtures.migrate_m1
       Fixtures.readonly_world
     = (Throw (ErrnoException "EACCES" "EACCES: permission denied"),
        Some db1, w2)
     /\ files w2 = files Fixtures.readonly_world)
  /\ (exists db1 w2,
        withConnection Mini.engine (fun _ => "data"%string)
          {| dbPath := "data/app.db" |} Fixtures.migrate_m1
          Fixtures.full_world
        = (Throw (ErrnoException "ENOSPC" "ENOSPC: no space left"),
           Some db1, w2)
        /\ files w2 "other.db" = None).
Proof.
  assert (Hpath : "data/app.db"%string <> ":memory:"%string) by discriminate.
  assert (Hother : "other.db"%string <> "data/app.db"%string)
    by discriminate.
  split.
  - destruct (@withConnection_save_fails _ Mini.engine
                (fun _ => "data"%string) _ {| dbPath := "data/app.db" |}
                Fixtures.migrate_m1 Fixtures.readonly_world
                (log (EvReadFile "data/app.db") Fixtures.readonly_world)
                (new_Database (blank Mini.engine))
                (snd (Fixtures.migrate_m1 (new_Database (blank Mini.engine))))
                [Mini.m1] Hpath eq_refl eq_refl) as [Hmkdir _].
    destruct (Hmkdir _ eq_refl) as [w2 [Hrun [Hfiles _]]].
    eexists. exists w2. split; [exact Hrun | exact Hfiles].
  - destruct (@withConnection_save_fails _ Mini.engine
                (fun _ => "data"%string) _ {| dbPath := "data/app.db" |}
                Fixtures.migrate_m1 Fixtures.full_world
                (log (EvReadFile "data/app.db") Fixtures.full_world)
                (new_Database (reopened Mini.engine (blank Mini.engine)))
                (snd (Fixtures.migrate_m1
                        (new_Database
                           (reopened Mini.engine (blank Mini.engine)))))
                [Mini.m1] Hpath eq_refl eq_refl) as [_ Hwrite].
    destruct (Hwrite _ eq_refl eq_refl) as [w2 [Hrun [Hothers _]]].
    eexists. exists w2. split; [exact Hrun|].
    rewrite (Hothers "other.db"%string Hother). reflexivity.
Defined.

(** X14 at a world in which the database file cannot be read. *)
Lemma withConnection_read_error_witness :
  withConnection Mini.engine (fun _ => "data"%string)
    {| dbPath := "data/app.db" |} Fixtures.migrate_m1
    Fixtures.unreadable_world
  = (Throw (ErrnoException "EACCES" "EACCES: permission denied"), None,
     log (EvReadFile "data/app.db") Fixtures.unreadable_world).
Proof.
  assert (Hpath : "data/app.db"%string <> ":memory:"%string) by discriminate.
  exact (@withConnection_read_error _ Mini.engine (fun _ => "data"%string) _
           {| dbPath := "data/app.db" |} Fixtures.migrate_m1
           Fixtures.unreadable_world _ Hpath eq_refl eq_refl).
Defined.


(* ------------------------------------------------------------------ *)
(** ** Runs that show what the conditions above are for *)

(** C6 at the three migrations declared in two different orders: the two
    runs agree, and both apply versions 1, 2 and 3 in that order. *)
Lemma runMigrations_permutation_witness :
  runMigrations Mini.engine [Mini.m3; Mini.m1; Mini.m2] Mini.fresh
  = runMigrations Mini.engine [Mini.m1; Mini.m2; Mini.m3] Mini.fresh
  /\ exists done rest d0 d1,
       [Mini.m1; Mini.m2; Mini.m3] = done ++ rest
       /\ Applied Mini.engine done d0 d1
       /\ journal d1 = journal d0 ++ flat_map calls_of done.
Proof.
  destruct (@runMigrations_permutation _ Mini.engine
              [Mini.m3; Mini.m1; Mini.m2] [Mini.m1; Mini.m2; Mini.m3]
              Mini.fresh
              (Permutation_cons_append [Mini.m1; Mini.m2] Mini.m3))
    as [Hsame [st [st' [d0 [done [rest [d1
         [Hst [_ [_ [_ [Hsplit [Happ [Hj _]]]]]]]]]]]]]].
  { simpl. repeat constructor; simpl; intuition discriminate. }
  split; [exact Hsame|].
  exists done, rest, d0, d1.
  split; [|split; [exact Happ | exact Hj]].
  rewrite <- Hsplit.
  assert (Hst0 : getMigrationStatus Mini.engine
                   [Mini.m3; Mini.m1; Mini.m2] Mini.fresh
                 = (Ok (spec_status [] [Mini.m3; Mini.m1; Mini.m2]),
                    after_status Mini.engine Mini.fresh))
    by reflexivity.
  rewrite Hst0 in Hst. inversion Hst. reflexivity.
Defined.

(** C6 as stated fails when two declared migrations share a version: the
    sort keeps them in declaration order, so [m1; m1_twin] and its
    permutation [m1_twin; m1] send different scripts first, and end with
    different ledgers and different schemas. *)
Lemma runMigrations_order_dependent :
  Permutation [Mini.m1; Mini.m1_twin] [Mini.m1_twin; Mini.m1]
  /\ journal (snd (runMigrations Mini.engine [Mini.m1; Mini.m1_twin]
                     Mini.fresh))
     = [CallExec MIGRATIONS_TABLE_SQL; CallPrepare SELECT_VERSIONS_SQL;
        CallExec (up Mini.m1);
        CallRun INSERT_LEDGER_SQL (insert_params Mini.m1);
        CallExec (up Mini.m1_twin);
        CallRun INSERT_LEDGER_SQL (insert_params Mini.m1_twin)]
  /\ journal (snd (runMigrations Mini.engine [Mini.m1_twin; Mini.m1]
                     Mini.fresh))
     = [CallExec MIGRATIONS_TABLE_SQL; CallPrepare SELECT_VERSIONS_SQL;
        CallExec (up Mini.m1_twin);
        CallRun INSERT_LEDGER_SQL (insert_params Mini.m1_twin);
        CallExec (up Mini.m1);
        CallRun INSERT_LEDGER_SQL (insert_params Mini.m1)]
  /\ recorded (state (snd (runMigrations Mini.engine [Mini.m1; Mini.m1_twin]
                             Mini.fresh)))
     = [(1, "create t")]
  /\ recorded (state (snd (runMigrations Mini.engine [Mini.m1_twin; Mini.m1]
                             Mini.fresh)))
     = [(1, "create u")].
Proof.
  split; [apply perm_swap|].
  repeat split; vm_compute; reflexivity.
Qed.

(** C5 as stated fails when an up script writes the ledger relation: with
    [b] clearing the ledger, the first run of [a; b] returns both, and the
    second run finds [a] pending again, applies it and returns it; ledger
    and schema are not those the first run left. *)
Lemma runMigrations_not_idempotent :
  fst (runMigrations Meddle.engine [Meddle.a; Meddle.b] Mini.fresh)
  = Ok [Meddle.a; Meddle.b]
  /\ fst (runMigrations Meddle.engine [Meddle.a; Meddle.b]
            (snd (runMigrations Meddle.engine [Meddle.a; Meddle.b]
                    Mini.fresh)))
     = Ok [Meddle.a]
  /\ recorded (state (snd (runMigrations Meddle.engine [Meddle.a; Meddle.b]
                             Mini.fresh)))
     = [(2, "reset")]
  /\ recorded (state (snd (runMigrations Meddle.engine [Meddle.a; Meddle.b]
                             (snd (runMigrations Meddle.engine
                                     [Meddle.a; Meddle.b] Mini.fresh)))))
     = [(2, "reset"); (1, "create t")]
  /\ store (state (snd (runMigrations Meddle.engine [Meddle.a; Meddle.b]
                          Mini.fresh)))
     = []
  /\ store (state (snd (runMigrations Meddle.engine [Meddle.a; Meddle.b]
                          (snd (runMigrations Meddle.engine
                                  [Meddle.a; Meddle.b] Mini.fresh)))))
     = ["t"].
Proof.
  repeat split; vm_compute; reflexivity.
Qed.

(** Why C2 asks that the down script leave the ledger relation alone: the
    down script of [b'] runs and clears the ledger, the call returns [b'],
    and the row of version 1 is gone with that of version 2. *)
Example rollbackMigration_down_writes_ledger :
  recorded (state Meddle.migrated) = [(1, "create t"); (2, "create u")]
  /\ fst (rollbackMigration Meddle.engine [Meddle.a; Meddle.b']
            Meddle.migrated)
     = Ok (Some Meddle.b')
  /\ recorded (state (snd (rollbackMigration Meddle.engine
                             [Meddle.a; Meddle.b'] Meddle.migrated)))
     = [].
Proof.
  repeat split; vm_compute; reflexivity.
Qed.

(** Why C2 separates the current version 0 from the others: with version 0
    applied the ledger is not empty, yet the current version is the
    sentinel and the call returns [None], reverting nothing. *)
Example rollbackMigration_version_zero :
  recorded (state Fixtures.migrated0) = [(0, "create z")]
  /\ fst (rollbackMigration Mini.engine [Fixtures.m0] Fixtures.migrated0)
     = Ok None
  /\ recorded (state (snd (rollbackMigration Mini.engine [Fixtures.m0]
                             Fixtures.migrated0)))
     = [(0, "create z")].
Proof.
  repeat split; vm_compute; reflexivity.
Qed.

(** X13 when it is the write that fails: the error comes back, the handle
    is closed, and the other files are untouched. *)
Example withConnection_write_fails :
  exists db1 w2,
    withConnection Mini.engine (fun _ => "data"%string)
      {| dbPath := "data/app.db" |} Fixtures.migrate_m1 Fixtures.full_world
    = (Throw (ErrnoException "ENOSPC" "ENOSPC: no space left"), Some db1, w2)
    /\ files w2 "data/app.db" = None
    /\ files Fixtures.full_world "data/app.db" = Some (blank Mini.engine).
Proof.
  eexists. eexists. repeat split.
Qed.
